(** * DMA-backed file transfer of the PLDM OEM file-I/O responder

    Shallow embedding of [oem/ibm/libpldmresponder/file_io.hpp]:
    the [dma::DMA] class (constructor, destructor, descriptor and
    event-source bookkeeping) and the [dma::transferAll] template with
    its two lambdas, the watchdog [timerCb] and the readiness
    [callback]; and the three signal handlers that the constructor of
    [oem_ibm::Handler] installs.

    Machine integers are [Z] with the wrap-around written out.  The
    process state that the code reaches through system calls, through
    the event loop and through the function-local [static IOPart part]
    is collected in the record [World] and threaded explicitly. *)

From Stdlib Require Import ZArith Lia List Bool.
From stdpp Require Import base option list gmap sets.
From Stdlib Require Import Sorted.
From stdpp Require Import strings.
Import ListNotations.
Local Open Scope Z_scope.

(** ** Fixed-width integers *)

Module Int.
(** Value stored in a [uint32_t]. *)
Definition uint32 (z : Z) : Z := z mod 2 ^ 32.
(** Value stored in a [uint64_t]. *)
Definition uint64 (z : Z) : Z := z mod 2 ^ 64.
(** [static_cast<int>] of a 32-bit pattern. *)
Definition int32 (z : Z) : Z := (z + 2 ^ 31) mod 2 ^ 32 - 2 ^ 31.
End Int.

(** ** Constants of the responder *)

(** [constexpr uint32_t minSize = 16] *)
Definition minSize : Z := 16.

(** libpldm completion codes used by [transferAll]. *)
Definition PLDM_SUCCESS : Z := 0.
Definition PLDM_ERROR : Z := 1.

(** [EPOLLIN] and [EPOLLOUT] of <sys/epoll.h>. *)
Definition EPOLLIN : Z := 1.
Definition EPOLLOUT : Z := 4.

(** ** Data *)

(** [struct IOPart { uint32_t length; uint32_t offset; uint64_t address; }] *)
Module IOPart.
Record t : Type := mk { length : Z; offset : Z; address : Z }.
End IOPart.

(** The fields of [ResponseHdr] that [transferAll] reads.
    [respInterface] records whether the transport pointer is non-null. *)
Record ResponseHdr : Type := mkHdr {
  instance_id : Z;
  command : Z;
  respInterface : bool;
  key : Z
}.

(** One message handed to [sendPLDMRespMsg]: the arguments given to
    [encode_rw_file_memory_resp] and the transport key. *)
Record Response : Type := mkResp {
  resp_instance_id : Z;
  resp_command : Z;
  resp_completion_code : Z;
  resp_length : Z;
  resp_key : Z
}.

(** One call of [transferDataHost(fd, offset, length, address, upstream)]. *)
Record Chunk : Type := mkChunk {
  chunk_fd : Z;
  chunk_offset : Z;
  chunk_length : Z;
  chunk_address : Z;
  chunk_upstream : bool
}.

(** What the two lambdas of [transferAll] capture by value. *)
Record Capture : Type := mkCap {
  cap_hdr : ResponseHdr;
  cap_file : Z;
  cap_upstream : bool;
  cap_origLength : Z
}.

(** An [sdeventplus] IO source: watched descriptor, event mask and the
    closure it owns. *)
Record IO : Type := mkIO {
  io_id : nat;
  io_fd : Z;
  io_events : Z;
  io_callback : Capture
}.

(** An [sdeventplus] time source, with the two durations given to its
    constructor and the closure it owns. *)
Record Timer : Type := mkTimer {
  timer_id : nat;
  timer_time : Z;
  timer_interval : Z;
  timer_callback : Capture
}.

(** [void* memAddr] *)
Inductive pointer : Type :=
| nullptr
| MAP_FAILED
| mapped_at (a : Z).

(** Process-wide state. *)
Record World : Type := mkWorld {
  open_fds : gset Z;          (* descriptors open in the process *)
  mappings : list (Z * Z);    (* live mmap regions: address, length *)
  io_sources : gset nat;      (* IO sources alive in the event loop *)
  timers : gset nat;          (* time sources alive in the event loop *)
  next_id : nat;              (* next fresh event-source identity *)
  sent : list Response;       (* messages given to sendPLDMRespMsg, in order *)
  chunks : list Chunk;        (* transferDataHost calls, in order *)
  part : IOPart.t             (* the [static IOPart part] of transferAll *)
}.

Definition with_open_fds (f : gset Z) (w : World) : World :=
  mkWorld f (mappings w) (io_sources w) (timers w) (next_id w) (sent w)
          (chunks w) (part w).
Definition with_mappings (m : list (Z * Z)) (w : World) : World :=
  mkWorld (open_fds w) m (io_sources w) (timers w) (next_id w) (sent w)
          (chunks w) (part w).
Definition with_io_sources (s : gset nat) (w : World) : World :=
  mkWorld (open_fds w) (mappings w) s (timers w) (next_id w) (sent w)
          (chunks w) (part w).
Definition with_timers (s : gset nat) (w : World) : World :=
  mkWorld (open_fds w) (mappings w) (io_sources w) s (next_id w) (sent w)
          (chunks w) (part w).
Definition with_next_id (n : nat) (w : World) : World :=
  mkWorld (open_fds w) (mappings w) (io_sources w) (timers w) n (sent w)
          (chunks w) (part w).
Definition with_sent (l : list Response) (w : World) : World :=
  mkWorld (open_fds w) (mappings w) (io_sources w) (timers w) (next_id w) l
          (chunks w) (part w).
Definition with_chunks (l : list Chunk) (w : World) : World :=
  mkWorld (open_fds w) (mappings w) (io_sources w) (timers w) (next_id w)
          (sent w) l (part w).
Definition with_part (p : IOPart.t) (w : World) : World :=
  mkWorld (open_fds w) (mappings w) (io_sources w) (timers w) (next_id w)
          (sent w) (chunks w) p.

(** [close(fd)] *)
Definition close (fd : Z) (w : World) : World :=
  with_open_fds (open_fds w ∖ {[fd]}) w.

(** [responseHdr.respInterface->sendPLDMRespMsg(response, key)], guarded
    by the null test that precedes every call in [transferAll]. *)
Definition sendPLDMRespMsg (h : ResponseHdr) (cc len : Z) (w : World) : World :=
  if respInterface h
  then with_sent (sent w ++ [mkResp (instance_id h) (command h) cc len (key h)]) w
  else w.

(** ** class DMA *)

Module DMA.

Record t : Type := mk {
  responseReceived : bool;
  memAddr : pointer;
  xdmaFd : Z;
  sourceFd : Z;
  pageAlignedLength : Z;
  rc : Z;
  iotPtr : option IO;
  iotPtrbc : option IO;
  timer : option Timer;
  m_length : Z
}.

Definition with_responseReceived (b : bool) (d : t) : t :=
  mk b (memAddr d) (xdmaFd d) (sourceFd d) (pageAlignedLength d) (rc d)
     (iotPtr d) (iotPtrbc d) (timer d) (m_length d).
Definition with_memAddr (p : pointer) (d : t) : t :=
  mk (responseReceived d) p (xdmaFd d) (sourceFd d) (pageAlignedLength d)
     (rc d) (iotPtr d) (iotPtrbc d) (timer d) (m_length d).
Definition with_xdmaFd (fd : Z) (d : t) : t :=
  mk (responseReceived d) (memAddr d) fd (sourceFd d) (pageAlignedLength d)
     (rc d) (iotPtr d) (iotPtrbc d) (timer d) (m_length d).
Definition with_sourceFd (fd : Z) (d : t) : t :=
  mk (responseReceived d) (memAddr d) (xdmaFd d) fd (pageAlignedLength d)
     (rc d) (iotPtr d) (iotPtrbc d) (timer d) (m_length d).
Definition with_rc (r : Z) (d : t) : t :=
  mk (responseReceived d) (memAddr d) (xdmaFd d) (sourceFd d)
     (pageAlignedLength d) r (iotPtr d) (iotPtrbc d) (timer d) (m_length d).
Definition with_iotPtr (p : option IO) (d : t) : t :=
  mk (responseReceived d) (memAddr d) (xdmaFd d) (sourceFd d)
     (pageAlignedLength d) (rc d) p (iotPtrbc d) (timer d) (m_length d).
Definition with_iotPtrbc (p : option IO) (d : t) : t :=
  mk (responseReceived d) (memAddr d) (xdmaFd d) (sourceFd d)
     (pageAlignedLength d) (rc d) (iotPtr d) p (timer d) (m_length d).
Definition with_timer (p : option Timer) (d : t) : t :=
  mk (responseReceived d) (memAddr d) (xdmaFd d) (sourceFd d)
     (pageAlignedLength d) (rc d) (iotPtr d) (iotPtrbc d) p (m_length d).

(** [delete] of an IO source / of a time source. *)
Definition delete_io (p : option IO) (w : World) : World :=
  match p with
  | Some io => with_io_sources (io_sources w ∖ {[io_id io]}) w
  | None => w
  end.
Definition delete_timer (p : option Timer) (w : World) : World :=
  match p with
  | Some tm => with_timers (timers w ∖ {[timer_id tm]}) w
  | None => w
  end.

Section PageSize.
(** [static const size_t pageSize = getpagesize()] *)
Variable pageSize : Z.

(** [DMA(uint32_t length)] *)
Definition DMA (length : Z) : t :=
  let m_length := length in
  let numPages := Int.uint32 (m_length / pageSize) in
  let pageAlignedLength := Int.uint32 (numPages * pageSize) in
  let pageAlignedLength :=
    if pageAlignedLength <? m_length
    then Int.uint32 (pageAlignedLength + pageSize)
    else pageAlignedLength in
  {| responseReceived := false; memAddr := nullptr; xdmaFd := -1;
     sourceFd := -1; pageAlignedLength := pageAlignedLength; rc := 0;
     iotPtr := None; iotPtrbc := None; timer := None;
     m_length := m_length |}.
End PageSize.

(** [~DMA()] *)
Definition destroy (d : t) (w : World) : World * t :=
  let d := match iotPtr d with
           | Some io => with_iotPtr None (with_iotPtrbc (Some io) d)
           | None => d
           end in
  let '(w, d) := match iotPtrbc d with
                 | Some io => (delete_io (Some io) w, with_iotPtrbc None d)
                 | None => (w, d)
                 end in
  let '(w, d) := match timer d with
                 | Some tm => (delete_timer (Some tm) w, with_timer None d)
                 | None => (w, d)
                 end in
  let '(w, d) := if 0 <? xdmaFd d
                 then (close (xdmaFd d) w, with_xdmaFd (-1) d)
                 else (w, d) in
  let '(w, d) := if 0 <? sourceFd d
                 then (close (sourceFd d) w, with_sourceFd (-1) d)
                 else (w, d) in
  (w, d).

(** [getNewXdmaFd()]; [opened] is what [open(xdmaDev, O_RDWR | O_NONBLOCK)]
    returns: a fresh descriptor, or -1. *)
Definition getNewXdmaFd (opened : Z) (d : t) (w : World) : Z * World * t :=
  let w := if 0 <=? opened
           then with_open_fds ({[opened]} ∪ open_fds w) w else w in
  (opened, w, with_xdmaFd opened d).

(** [getXdmaFd()] *)
Definition getXdmaFd (opened : Z) (d : t) (w : World) : Z * World * t :=
  if 0 <? xdmaFd d then (xdmaFd d, w, d) else getNewXdmaFd opened d w.

(** [setDMASourceFd(fd)] *)
Definition setDMASourceFd (fd : Z) (d : t) : t := with_sourceFd fd d.

(** [setXDMASourceFd(fd)] *)
Definition setXDMASourceFd (fd : Z) (d : t) : t := with_xdmaFd fd d.

(** [getpageAlignedLength()], returned as [int32_t]. *)
Definition getpageAlignedLength (d : t) : Z := Int.int32 (pageAlignedLength d).

(** [getXDMAsharedlocation()]; [mmapped] is what [mmap] returns: the
    address of the new region, or [inr errno] for [MAP_FAILED]. *)
Definition getXDMAsharedlocation (mmapped : Z + Z) (d : t) (w : World)
  : pointer * World * t :=
  if xdmaFd d <? 0 then (MAP_FAILED, w, d)
  else match mmapped with
       | inl a =>
           (mapped_at a,
            with_mappings ((a, pageAlignedLength d) :: mappings w) w,
            with_memAddr (mapped_at a) d)
       | inr errno =>
           (MAP_FAILED, w, with_rc (- errno) (with_memAddr MAP_FAILED d))
       end.

(** [insertIOInstance(std::move(ioptr))]: the assignment to the
    [unique_ptr] deletes the source it held before. *)
Definition insertIOInstance (io : IO) (d : t) (w : World) : World * t :=
  (delete_io (iotPtr d) w, with_iotPtr (Some io) d).

(** [initTimer(event, callback)]; [now] is [Clock(event).now()] in
    seconds and [throws] tells whether the [Timer] constructor raises
    [std::runtime_error]. *)
Definition initTimer (now : Z) (throws : bool) (cb : Capture) (d : t)
    (w : World) : bool * World * t :=
  if throws then (false, w, d)
  else
    let tm := mkTimer (next_id w) (now + 20) 1 cb in
    let w := delete_timer (timer d) w in
    let w := with_next_id (S (next_id w))
               (with_timers ({[timer_id tm]} ∪ timers w) w) in
    (true, w, with_timer (Some tm) d).

(** [deleteIOInstance()] *)
Definition deleteIOInstance (d : t) (w : World) : World * t :=
  let '(w, d) := match timer d with
                 | Some tm => (delete_timer (Some tm) w, with_timer None d)
                 | None => (w, d)
                 end in
  let d := match iotPtr d with
           | Some io => with_iotPtr None (with_iotPtrbc (Some io) d)
           | None => d
           end in
  (w, d).

(** [setResponseReceived(bresponse)] *)
Definition setResponseReceived (b : bool) (d : t) : t :=
  with_responseReceived b d.

(** [getResponseReceived()] *)
Definition getResponseReceived (d : t) : bool := responseReceived d.

End DMA.

(** ** transferAll *)

(** What the surroundings decide during one call of [transferAll]. *)
Record Env : Type := mkEnv {
  env_opened : Z;          (* result of open("/dev/aspeed-xdma", ...) *)
  env_now : Z;             (* Clock(event).now(), in seconds *)
  env_timer_throws : bool; (* the Timer constructor raises runtime_error *)
  env_io_throws : bool     (* the IO constructor raises runtime_error *)
}.

(** The request as [transferAll] receives it. *)
Record Request : Type := mkReq {
  req_file : Z;       (* int32_t file *)
  req_offset : Z;     (* uint32_t offset *)
  req_length : Z;     (* uint32_t length *)
  req_address : Z;    (* uint64_t address *)
  req_upstream : bool;
  req_hdr : ResponseHdr
}.

(** Events the reactor delivers to a session. *)
Inductive Event : Type :=
| Readiness (revents : Z)   (* the IO source fires with these revents *)
| Expiry.                   (* the time source fires *)

(** How the [while] loop of the readiness callback is left. *)
Inductive loop_exit : Type :=
| LoopEnd (w : World)       (* condition false *)
| LoopFailed (w : World).   (* [rc < 0] inside the body *)

Section TransferAll.

(** [constexpr size_t maxSize = DMA_MAXSIZE], a build-time constant. *)
Variable maxSize : Z.

(** Result of the [n]-th DMA operation of the process, as a function
    of its arguments. *)
Variable drv : nat -> Chunk -> Z.

(** Modelled from the spec: the body of [DMA::transferDataHost] is
    not part of the sources.  Following [submit_chunk], one call
    issues one DMA operation for (source fd, file offset, chunk
    length, host address, direction) and reports the byte count, or
    a negative errno.  The call is recorded in [chunks]; its result
    comes from [drv]. *)
Definition transferDataHost (fd offset len address : Z) (upstream : bool)
    (w : World) : Z * World :=
  let c := mkChunk fd offset len address upstream in
  (drv (length (chunks w)) c, with_chunks (chunks w ++ [c]) w).

(** The error epilogue shared by every failing branch:
    encode PLDM_ERROR with length 0, send, [deleteIOInstance].  The
    [reset()] that follows in the source acts on a temporary copy of
    the shared pointer and releases no owner. *)
Definition respond_error (h : ResponseHdr) (w : World) (intf : DMA.t)
  : World * DMA.t :=
  DMA.deleteIOInstance intf (sendPLDMRespMsg h PLDM_ERROR 0 w).

(** [timerCb] *)
Definition timerCb (c : Capture) (w : World) (intf : DMA.t) : World * DMA.t :=
  if negb (DMA.getResponseReceived intf)
  then respond_error (cap_hdr c) w intf
  else (w, intf).

(** [while (part.length > dma::maxSize) { ... }] of [callback].
    [None] stands for a loop that does not end within [fuel] rounds. *)
Fixpoint while_loop (fuel : nat) (c : Capture) (w : World) : option loop_exit :=
  if maxSize <? IOPart.length (part w) then
    match fuel with
    | O => None
    | S fuel =>
        let p := part w in
        let '(rc, w) :=
          transferDataHost (cap_file c) (IOPart.offset p) (Int.uint32 maxSize)
                           (IOPart.address p) (cap_upstream c) w in
        let w :=
          with_part (IOPart.mk (Int.uint32 (IOPart.length p - maxSize))
                               (Int.uint32 (IOPart.offset p + maxSize))
                               (Int.uint64 (IOPart.address p + maxSize))) w in
        if rc <? 0 then Some (LoopFailed w) else while_loop fuel c w
    end
  else Some (LoopEnd w).

(** Rounds granted to the loop: it never needs more than
    [part.length / maxSize] (lemmas [while_loop_spec] and
    [loop_fuel_enough]). *)
Definition loop_fuel (w : World) : nat :=
  Z.to_nat (IOPart.length (part w) / maxSize).

(** [callback], the readiness lambda. *)
Definition callback (c : Capture) (revents : Z) (w : World) (intf : DMA.t)
  : option (World * DMA.t) :=
  if Z.land revents (Z.lor EPOLLIN EPOLLOUT) =? 0 then Some (w, intf)
  else
    match while_loop (loop_fuel w) c w with
    | None => None
    | Some (LoopFailed w) => Some (respond_error (cap_hdr c) w intf)
    | Some (LoopEnd w) =>
        let p := part w in
        let '(rc, w) :=
          transferDataHost (cap_file c) (IOPart.offset p) (IOPart.length p)
                           (IOPart.address p) (cap_upstream c) w in
        if rc <? 0 then Some (respond_error (cap_hdr c) w intf)
        else if Int.int32 (IOPart.length p) =? rc then
          let intf := DMA.setResponseReceived true intf in
          let w := sendPLDMRespMsg (cap_hdr c) PLDM_SUCCESS (cap_origLength c) w in
          Some (DMA.deleteIOInstance intf w)
        else Some (w, intf)
    end.

(** [transferAll(intf, file, offset, length, address, upstream,
    responseHdr, event)].  The attachment of the bus to the event
    loop has no effect on the state modelled here. *)
Definition transferAll (intf : option DMA.t) (r : Request) (e : Env)
    (w : World) : World * option DMA.t :=
  match intf with
  | None =>
      let w := sendPLDMRespMsg (req_hdr r) PLDM_ERROR 0 w in
      (close (req_file r) w, None)
  | Some intf =>
      let intf := DMA.setDMASourceFd (req_file r) intf in
      let origLength := req_length r in
      let w := with_part (IOPart.mk (req_length r) (req_offset r)
                                    (req_address r)) w in
      let c := mkCap (req_hdr r) (req_file r) (req_upstream r) origLength in
      let '(xdmaFd, w, intf) := DMA.getNewXdmaFd (env_opened e) intf w in
      if xdmaFd <? 0 then
        let '(w, intf) := respond_error (req_hdr r) w intf in (w, Some intf)
      else
        let '(ok, w, intf) :=
          DMA.initTimer (env_now e) (env_timer_throws e) c intf w in
        if negb ok then
          let '(w, intf) := respond_error (req_hdr r) w intf in (w, Some intf)
        else if env_io_throws e then
          (* catch (const std::runtime_error& e) *)
          let '(w, intf) := respond_error (req_hdr r) w intf in (w, Some intf)
        else
          let io := mkIO (next_id w) xdmaFd (Z.lor EPOLLIN EPOLLOUT) c in
          let w := with_next_id (S (next_id w))
                     (with_io_sources ({[io_id io]} ∪ io_sources w) w) in
          let '(w, intf) := DMA.insertIOInstance io intf w in
          (w, Some intf)
  end.

(** The IO source of a session that is still registered with the
    event loop: owned through [iotPtr], or parked in [iotPtrbc]. *)
Definition registered_io (intf : DMA.t) : option IO :=
  match DMA.iotPtr intf with
  | Some io => Some io
  | None => DMA.iotPtrbc intf
  end.

(** The reactor delivers one event to a live session. *)
Definition dispatch (ev : Event) (w : World) (intf : DMA.t)
  : option (World * DMA.t) :=
  match ev with
  | Readiness revents =>
      match registered_io intf with
      | Some io => callback (io_callback io) revents w intf
      | None => Some (w, intf)
      end
  | Expiry =>
      match DMA.timer intf with
      | Some tm => Some (timerCb (timer_callback tm) w intf)
      | None => Some (w, intf)
      end
  end.

Fixpoint run (evs : list Event) (w : World) (intf : DMA.t)
  : option (World * DMA.t) :=
  match evs with
  | [] => Some (w, intf)
  | ev :: evs =>
      match dispatch ev w intf with
      | Some (w, intf) => run evs w intf
      | None => None
      end
  end.

(** A session whose object is also held by an owner outside these
    sources: [transferAll], the events delivered while that owner keeps
    the object, then the destructor.  It admits every life the
    sources give (see [owned_session]) and longer ones, and serves for
    properties of the form "no path ever does". *)
Definition session (intf : DMA.t) (r : Request) (e : Env)
    (evs : list Event) (w : World) : option (World * DMA.t) :=
  match transferAll (Some intf) r e w with
  | (w, Some intf) =>
      match run evs w intf with
      | Some (w, intf) => Some (DMA.destroy intf w)
      | None => None
      end
  | (_, None) => None
  end.

End TransferAll.

(** ** Ownership of the session object *)

Section Lifetime.

Variable maxSize : Z.
Variable drv : nat -> Chunk -> Z.

(** The session object is held through [std::shared_ptr].  The sources
    show two owners: the argument [intf] of [transferAll], which goes
    when the call returns, and the copy of [intf] that [timerCb]
    captures by value, which lives in the [Timer] and goes when the
    [Timer] is deleted.  The readiness callback captures a [weak_ptr]
    and owns the object only through the pointer it locks for the time
    of one invocation, and every [reset()] acts on a temporary copy.
    So once [transferAll] or a callback has returned, the object lives
    exactly as long as it holds a timer; when it holds none, the last
    owner is gone and [~DMA] has run: after [timerCb] the owner went
    when [deleteIOInstance] deleted the [Timer], after the readiness
    callback when the locked pointer went out of scope.  A caller
    that keeps a pointer of its own is outside these sources (see
    [session]). *)
Definition settle (w : World) (intf : DMA.t) : World * option DMA.t :=
  match DMA.timer intf with
  | Some _ => (w, Some intf)
  | None => (fst (DMA.destroy intf w), None)
  end.

(** The reactor delivers one event.  A session that has been destroyed
    has no event source left, and nothing is called. *)
Definition owned_dispatch (ev : Event) (s : World * option DMA.t)
  : option (World * option DMA.t) :=
  match s with
  | (w, Some intf) =>
      match dispatch maxSize drv ev w intf with
      | Some (w, intf) => Some (settle w intf)
      | None => None
      end
  | (w, None) => Some (w, None)
  end.

Fixpoint owned_run (evs : list Event) (s : World * option DMA.t)
  : option (World * option DMA.t) :=
  match evs with
  | [] => Some s
  | ev :: evs =>
      match owned_dispatch ev s with
      | Some s => owned_run evs s
      | None => None
      end
  end.

(** A session under the ownership the sources give: [transferAll],
    the release of its argument, then the events.  The second
    component of the result is the session object while it lives and
    [None] once it has been dropped. *)
Definition owned_session (intf : option DMA.t) (r : Request) (e : Env)
    (evs : list Event) (w : World) : option (World * option DMA.t) :=
  match transferAll intf r e w with
  | (w, Some intf) => owned_run evs (settle w intf)
  | (w, None) => owned_run evs (w, None)
  end.

End Lifetime.

(** ** Notions used to state the properties *)

(** [ceil(a / b)] for a positive divisor. *)
Definition ceil_div (a b : Z) : Z := (a + b - 1) / b.



(** The [i]-th full-size operation issued by the loop for a plan that
    starts at [(off, addr)]. *)
Definition nth_full_chunk (c : Capture) (M off addr : Z) (i : nat) : Chunk :=
  mkChunk (cap_file c) (Int.uint32 (off + Z.of_nat i * M)) M
          (Int.uint64 (addr + Z.of_nat i * M)) (cap_upstream c).

Definition full_chunks (c : Capture) (M off addr : Z) (k : nat) : list Chunk :=
  map (nth_full_chunk c M off addr) (seq 0 k).

(** The operation issued after the loop, once [k] full chunks are gone. *)
Definition tail_chunk (c : Capture) (M L off addr : Z) (k : nat) : Chunk :=
  mkChunk (cap_file c) (Int.uint32 (off + Z.of_nat k * M)) (L - Z.of_nat k * M)
          (Int.uint64 (addr + Z.of_nat k * M)) (cap_upstream c).

(** The world after [k] rounds of the loop on the plan [(L, off, addr)]. *)
Definition after_rounds (c : Capture) (M L off addr : Z) (k : nat) (w : World)
  : World :=
  with_part (IOPart.mk (L - Z.of_nat k * M) (Int.uint32 (off + Z.of_nat k * M))
                       (Int.uint64 (addr + Z.of_nat k * M)))
            (with_chunks (chunks w ++ full_chunks c M off addr k) w).

(** The response a session sends for a header, a completion code and a
    length field. *)
Definition response_of (h : ResponseHdr) (cc len : Z) : Response :=
  mkResp (instance_id h) (command h) cc len (key h).

(** The world after the operation for the tail, issued once [k] full
    chunks are gone. *)
Definition after_tail (c : Capture) (M L off addr : Z) (k : nat) (w : World)
  : World :=
  with_chunks (chunks w ++ full_chunks c M off addr k
                        ++ [tail_chunk c M L off addr k])
    (after_rounds c M L off addr k w).

(** The world in which the loop is left. *)
Definition exit_world (x : loop_exit) : World :=
  match x with
  | LoopEnd w => w
  | LoopFailed w => w
  end.

(** The descriptors the destructor closes for a stored value [fd]. *)
Definition closed_by_destructor (fd : Z) : gset Z :=
  if 0 <? fd then {[fd]} else ∅.

(** A session object that owns no event source yet. *)
Definition fresh (d : DMA.t) : Prop :=
  DMA.iotPtr d = None /\ DMA.iotPtrbc d = None /\ DMA.timer d = None.

(** The closure both lambdas get from a call of [transferAll]. *)
Definition capture_of (r : Request) : Capture :=
  mkCap (req_hdr r) (req_file r) (req_upstream r) (req_length r).

(** The arguments fit their C++ types. *)
Definition well_typed (r : Request) : Prop :=
  0 <= req_length r < 2 ^ 32 /\ 0 <= req_offset r < 2 ^ 32 /\
  0 <= req_address r < 2 ^ 64.

Definition part_in_range (w : World) : Prop :=
  0 <= IOPart.length (part w) < 2 ^ 32 /\
  0 <= IOPart.offset (part w) < 2 ^ 32 /\
  0 <= IOPart.address (part w) < 2 ^ 64.

(** Identities of the event sources a session object points to. *)
Definition io_ids (d : DMA.t) : gset nat :=
  match registered_io d with
  | Some io => {[io_id io]}
  | None => ∅
  end.
Definition timer_ids (d : DMA.t) : gset nat :=
  match DMA.timer d with
  | Some tm => {[timer_id tm]}
  | None => ∅
  end.

(** [w'] differs from [w] at most in the transfer log, the responses
    and the plan. *)
Definition frame (w w' : World) : Prop :=
  open_fds w' = open_fds w /\ mappings w' = mappings w /\
  io_sources w' = io_sources w /\ timers w' = timers w /\
  next_id w' = next_id w /\ (part_in_range w -> part_in_range w').

(** What holds of a session started by [transferAll] on request [r] in
    world [w0], at every point of its life. *)
Record session_inv (w0 : World) (r : Request) (e : Env) (w : World)
    (d : DMA.t) : Prop := mkInv {
  inv_part : part_in_range w;
  inv_io_cb : forall io, registered_io d = Some io -> io_callback io = capture_of r;
  inv_timer_cb : forall tm, DMA.timer d = Some tm -> timer_callback tm = capture_of r;
  inv_single : DMA.iotPtr d = None \/ DMA.iotPtrbc d = None;
  inv_io : io_sources w ⊆ io_sources w0 ∪ io_ids d;
  inv_timers : timers w ⊆ timers w0 ∪ timer_ids d;
  inv_source : DMA.sourceFd d = req_file r;
  inv_xdma : DMA.xdmaFd d = env_opened e;
  inv_fds : open_fds w0 ⊆ open_fds w
}.

(** A typical build: 16 MiB per DMA operation, 4 KiB pages. *)
Definition MiB16 : Z := 16777216.
Definition page4k : Z := 4096.

(** A driver that transfers every chunk completely. *)
Definition drv_complete : nat -> Chunk -> Z := fun _ ch => chunk_length ch.

(** A driver whose [n]-th operation fails with EIO and whose other
    operations complete. *)
Definition drv_fail_at (n : nat) : nat -> Chunk -> Z :=
  fun i ch => if Nat.eqb i n then -5 else chunk_length ch.

(** A process with the source file open on descriptor [fd] and nothing
    else of interest. *)
Definition world_with_fd (fd : Z) : World :=
  mkWorld {[fd]} [] ∅ ∅ 0%nat [] [] (IOPart.mk 0 0 0).

Definition sample_hdr : ResponseHdr := mkHdr 7 6 true 99.

(** [transferAll] followed by the first readiness event of the new
    session. *)
Definition first_readiness (M : Z) (drv : nat -> Chunk -> Z) (d0 : DMA.t)
    (r : Request) (e : Env) (revents : Z) (w0 : World) : option (World * DMA.t) :=
  match transferAll (Some d0) r e w0 with
  | (w1, Some d1) => dispatch M drv (Readiness revents) w1 d1
  | (_, None) => None
  end.

(** The surroundings let the session start: the device opens as
    descriptor 5 and both event sources are created. *)
Definition env_ok : Env := mkEnv 5 1000 false false.

(** A request of one full chunk and 512 bytes (scenario S2). *)
Definition request_S2 : Request :=
  mkReq 7 0 (MiB16 + 512) 2147483648 false sample_hdr.

(** Reading the logs of a result. *)
Definition responses_of (o : option (World * DMA.t)) : option (list Response) :=
  option_map (fun p => sent (fst p)) o.
Definition transfers_of (o : option (World * DMA.t)) : option (list Chunk) :=
  option_map (fun p => chunks (fst p)) o.

(** Two requests on different files. *)
Definition request_A : Request := mkReq 10 0 32 4096 true (mkHdr 1 6 true 100).
Definition request_B : Request := mkReq 11 4096 64 8192 true (mkHdr 2 6 true 200).

(** Session A is started, then session B; the world in between and
    the world after both starts. *)
Definition after_start_A : World * option DMA.t :=
  transferAll (Some (DMA.DMA page4k 32)) request_A env_ok
    (mkWorld {[10; 11]} [] ∅ ∅ 0%nat [] [] (IOPart.mk 0 0 0)).
Definition after_start_B : World * option DMA.t :=
  transferAll (Some (DMA.DMA page4k 64)) request_B (mkEnv 6 1000 false false)
    (fst after_start_A).

(** The device of session A becomes ready once B has been started. *)
Definition A_ready_after_B : option (World * DMA.t) :=
  match snd after_start_A with
  | Some dA => dispatch MiB16 drv_complete (Readiness EPOLLIN) (fst after_start_B) dA
  | None => None
  end.

(** ** Further notions *)

(** What [sendPLDMRespMsg] adds to the responses: the message, or
    nothing when the transport pointer is null. *)
Definition resp_if (h : ResponseHdr) (cc len : Z) : list Response :=
  if respInterface h then [response_of h cc len] else [].

(** An event whose [revents] has neither [EPOLLIN] nor [EPOLLOUT]. *)
Definition no_io_bits (ev : Event) : Prop :=
  exists revents,
    ev = Readiness revents /\ Z.land revents (Z.lor EPOLLIN EPOLLOUT) = 0.

(** What the responses of a session started on [r] look like while it
    lives: [news] are the responses it has sent since [transferAll]
    returned with the timer [tm0] armed. *)
Record answer_inv (w0 : World) (r : Request) (tm0 : Timer) (w : World)
    (d : DMA.t) (news : list Response) : Prop := mkAnswerInv {
  ai_sent : sent w = sent w0 ++ news;
  ai_armed : news = [] -> DMA.timer d = Some tm0 /\ DMA.responseReceived d = false;
  ai_disarmed : news <> [] -> DMA.timer d = None;
  ai_latch : DMA.responseReceived d = true <->
             In (response_of (req_hdr r) PLDM_SUCCESS (req_length r)) news;
  ai_kind : Forall (fun x => x = response_of (req_hdr r) PLDM_ERROR 0 \/
                             x = response_of (req_hdr r) PLDM_SUCCESS (req_length r))
                   news
}.

(** [transferAll] on a session object followed by the events delivered
    to the session while it lives. *)
Definition live_session (M : Z) (drv : nat -> Chunk -> Z) (d0 : DMA.t)
    (r : Request) (e : Env) (evs : list Event) (w0 : World)
  : option (World * DMA.t) :=
  match transferAll (Some d0) r e w0 with
  | (w1, Some d1) => run M drv evs w1 d1
  | (_, None) => None
  end.

(** [EPOLLERR] and [EPOLLHUP] of <sys/epoll.h>. *)
Definition EPOLLERR : Z := 8.
Definition EPOLLHUP : Z := 16.

(** The [i]-th operation of the plan of a request: a full chunk while
    more than [maxSize] bytes remain, the tail otherwise. *)
Definition planned_chunk (r : Request) (M : Z) (i : nat) : Chunk :=
  if Z.of_nat i + 1 <? ceil_div (req_length r) M
  then nth_full_chunk (capture_of r) M (req_offset r) (req_address r) i
  else tail_chunk (capture_of r) M (req_length r) (req_offset r) (req_address r) i.

(** ** Notions for whole sessions *)





(** The descriptors open after [transferAll] has opened the device. *)
Definition opened_fds (e : Env) (w0 : World) : gset Z :=
  (if 0 <=? env_opened e then {[env_opened e]} else ∅) ∪ open_fds w0.

(** What a dropped session leaves of the process state [w0] it was
    started in. *)
Definition released (w0 : World) (r : Request) (e : Env) (w : World) : Prop :=
  io_sources w ⊆ io_sources w0 /\ timers w ⊆ timers w0 /\
  mappings w = mappings w0 /\
  open_fds w = opened_fds e w0 ∖ closed_by_destructor (env_opened e)
                               ∖ closed_by_destructor (req_file r).

(** The one answer of a session: PLDM_ERROR with length 0 or
    PLDM_SUCCESS with the request length, handed to the transport if
    there is one. *)
Definition answer_of (r : Request) (news : list Response) : Prop :=
  news = resp_if (req_hdr r) PLDM_ERROR 0 \/
  news = resp_if (req_hdr r) PLDM_SUCCESS (req_length r).

(** What holds of a session under the ownership of the sources: while
    it lives it is armed and has not answered; once dropped it has
    answered once and released what it held. *)
Definition life_inv (w0 : World) (r : Request) (e : Env) (latch0 : bool)
    (s : World * option DMA.t) : Prop :=
  match s with
  | (w, Some d) =>
      session_inv w0 r e w d /\ DMA.timer d <> None /\ sent w = sent w0 /\
      DMA.responseReceived d = latch0 /\ mappings w = mappings w0 /\
      open_fds w = opened_fds e w0
  | (w, None) =>
      released w0 r e w /\
      exists news, sent w = sent w0 ++ news /\ answer_of r news
  end.




(** ** The signal handlers of [oem_ibm::Handler] *)

Module oem_ibm.

(** [resDumpEntry], [certAuthority] *)
Definition resDumpEntry : string := "com.ibm.Dump.Entry.Resource".
Definition certAuthority : string :=
  "xyz.openbmc_project.PLDM.Provider.Certs.Authority.CSR".

(** [std::variant<std::string, uint32_t>], the property values of an
    interfaces-added signal. *)
Inductive PropValue : Type :=
| VString (s : string)
| VUint32 (n : Z).

(** [std::get<std::string>(v)]; [None] is [std::bad_variant_access]. *)
Definition get_string (v : PropValue) : option string :=
  match v with
  | VString s => Some s
  | VUint32 _ => None
  end.

(** Modelled from the spec: the requests forwarded to the host for a
    new resource dump, a certificate signing request and a license
    activation.  [DbusToFileHandler] is declared outside these
    sources, so a request is kept as the name of the member function
    with its arguments. *)
Inductive HostRequest : Type :=
| processNewResourceDump (vspstring password : string)
| newCsrFileAvailable (csr fileHandle : string)
| newLicFileAvailable (licenseStr : string).

(** One element of [dbusToFileHandlers]: the arguments the object was
    constructed with and the request issued on it. *)
Record DbusToFileHandler : Type := mkDbusToFileHandler {
  dh_hostSockFd : Z;
  dh_hostEid : Z;
  dh_path : string;
  dh_request : HostRequest
}.

(** The members of [oem_ibm::Handler] the signal handlers reach. *)
Record Handler : Type := mkHandler {
  hostSockFd : Z;
  hostEid : Z;
  dbusToFileHandlers : list DbusToFileHandler
}.

(** [dbusToFileHandlers.emplace_back(std::make_unique<DbusToFileHandler>(
    hostSockFd, hostEid, dbusImplReqester, path, handler))->request] *)
Definition emplace_back (path : string) (q : HostRequest) (h : Handler)
  : Handler :=
  mkHandler (hostSockFd h) (hostEid h)
    (dbusToFileHandlers h ++
     [mkDbusToFileHandler (hostSockFd h) (hostEid h) path q]).

(** A [std::map] is given by its entries in iteration order. *)
Definition Props : Type := list (string * PropValue).
Definition Interfaces : Type := list (string * Props).

(** The inner loop of [resDumpMatcher] over the properties of the
    resource dump entry; [None] when [std::get] throws. *)
Fixpoint resDump_props (props : Props) (vspstring password : string)
  : option (string * string) :=
  match props with
  | [] => Some (vspstring, password)
  | (name, value) :: rest =>
      if String.eqb name "VSPString" then
        match get_string value with
        | Some s => resDump_props rest s password
        | None => None
        end
      else if String.eqb name "Password" then
        match get_string value with
        | Some s => resDump_props rest vspstring s
        | None => None
        end
      else resDump_props rest vspstring password
  end.

(** The callback of [resDumpMatcher] on a signal carrying [path] and
    [interfaces]; [None] when an exception leaves the callback. *)
Fixpoint resDumpMatcher (path : string) (interfaces : Interfaces)
    (h : Handler) : option Handler :=
  match interfaces with
  | [] => Some h
  | (name, props) :: rest =>
      if String.eqb name resDumpEntry then
        match resDump_props props EmptyString EmptyString with
        | Some (vspstring, password) =>
            Some (emplace_back path
                    (processNewResourceDump vspstring password) h)
        | None => None
        end
      else resDumpMatcher path rest h
  end.

Section ObjectPath.

(** [sdbusplus::message::object_path::filename()] *)
Variable filename : string -> string.

(** The inner loop of [vmiCertMatcher]. *)
Fixpoint vmiCert_props (path : string) (props : Props) (h : Handler)
  : option Handler :=
  match props with
  | [] => Some h
  | (name, value) :: rest =>
      if String.eqb name "CSR" then
        match get_string value with
        | Some csr =>
            let fileHandle := filename path in
            Some (emplace_back path (newCsrFileAvailable csr fileHandle) h)
        | None => None
        end
      else vmiCert_props path rest h
  end.

(** The callback of [vmiCertMatcher]. *)
Fixpoint vmiCertMatcher (path : string) (interfaces : Interfaces)
    (h : Handler) : option Handler :=
  match interfaces with
  | [] => Some h
  | (name, props) :: rest =>
      if String.eqb name certAuthority then vmiCert_props path props h
      else vmiCertMatcher path rest h
  end.

End ObjectPath.

Section License.

(** [pldm::utils::PropertyValue] is a variant declared outside these
    sources; [get] is [std::get<std::string>] on it, [None] for
    [std::bad_variant_access]. *)
Context {PropertyValue : Type}.
Variable get : PropertyValue -> option string.

(** The callback of [codLicensesubs] on the changed properties, in
    the iteration order of the [std::map].  The body of the loop ends
    in [break], and [path] is a default-constructed object path. *)
Definition codLicensesubs (props : list (string * PropertyValue))
    (h : Handler) : option Handler :=
  match props with
  | [] => Some h
  | (name, value) :: _ =>
      if String.eqb name "LicenseString" then
        match get value with
        | Some licenseStr =>
            if String.eqb licenseStr EmptyString then Some h
            else Some (emplace_back EmptyString (newLicFileAvailable licenseStr) h)
        | None => None
        end
      else Some h
  end.

End License.

(** The entries of a [std::map<std::string, _>] come in strictly
    increasing order of their keys. *)
Definition key_sorted {V : Type} (m : list (string * V)) : Prop :=
  StronglySorted (fun a b => String.ltb (fst a) (fst b) = true) m.

(** The string a property holds in [props], [dflt] when the key is
    missing. *)
Definition string_or (dflt : string) (v : option PropValue) : string :=
  match v with
  | Some (VString s) => s
  | _ => dflt
  end.

(** A property of type [uint32_t]. *)
Definition is_uint32 (v : option PropValue) : bool :=
  match v with
  | Some (VUint32 _) => true
  | _ => false
  end.

End oem_ibm.

(** * Properties *)

(** ** Fixed-width arithmetic *)

Lemma uint32_small z : 0 <= z < 2 ^ 32 -> Int.uint32 z = z.
Proof. intros H. unfold Int.uint32. now apply Z.mod_small. Qed.

Lemma uint64_small z : 0 <= z < 2 ^ 64 -> Int.uint64 z = z.
Proof. intros H. unfold Int.uint64. now apply Z.mod_small. Qed.

Lemma int32_small z : 0 <= z < 2 ^ 31 -> Int.int32 z = z.
Proof. intros H. unfold Int.int32. rewrite Z.mod_small; lia. Qed.

Lemma uint32_add_l a b : Int.uint32 (Int.uint32 a + b) = Int.uint32 (a + b).
Proof. unfold Int.uint32. apply Zplus_mod_idemp_l. Qed.

Lemma uint64_add_l a b : Int.uint64 (Int.uint64 a + b) = Int.uint64 (a + b).
Proof. unfold Int.uint64. apply Zplus_mod_idemp_l. Qed.

(** ** The chunk loop *)

Section Loop.
Variable maxSize : Z.
Variable drv : nat -> Chunk -> Z.
Variable c : Capture.
Hypothesis maxSize_pos : 0 < maxSize.

Lemma after_rounds_0 L off addr w :
  part w = IOPart.mk L off addr ->
  0 <= off < 2 ^ 32 -> 0 <= addr < 2 ^ 64 ->
  after_rounds c maxSize L off addr 0 w = w.
Proof.
  intros Hp Ho Ha. unfold after_rounds, full_chunks. simpl.
  rewrite app_nil_r, !Z.add_0_r, Z.sub_0_r.
  rewrite uint32_small, uint64_small by lia.
  destruct w; simpl in *; subst; reflexivity.
Qed.

Lemma full_chunks_S M off addr k :
  full_chunks c M off addr (S k) =
  nth_full_chunk c M off addr 0 ::
    full_chunks c M (Int.uint32 (off + M)) (Int.uint64 (addr + M)) k.
Proof.
  unfold full_chunks. simpl. f_equal.
  rewrite <- seq_shift, map_map. apply map_ext. intros i.
  unfold nth_full_chunk. rewrite uint32_add_l, uint64_add_l.
  f_equal; f_equal; lia.
Qed.

(** One round of the loop followed by [k] rounds is [S k] rounds. *)
Lemma after_rounds_S L off addr k w w1 :
  chunks w1 = chunks w ++ [nth_full_chunk c maxSize off addr 0] ->
  open_fds w1 = open_fds w -> mappings w1 = mappings w ->
  io_sources w1 = io_sources w -> timers w1 = timers w ->
  next_id w1 = next_id w -> sent w1 = sent w ->
  after_rounds c maxSize (L - maxSize) (Int.uint32 (off + maxSize))
               (Int.uint64 (addr + maxSize)) k w1
  = after_rounds c maxSize L off addr (S k) w.
Proof.
  intros Hc H1 H2 H3 H4 H5 H6. unfold after_rounds.
  rewrite full_chunks_S, Hc, <- app_assoc. simpl.
  rewrite uint32_add_l, uint64_add_l.
  unfold with_part, with_chunks. simpl. rewrite H1, H2, H3, H4, H5, H6.
  f_equal. f_equal; [lia | f_equal; lia | f_equal; lia].
Qed.

(** The loop ends within [fuel] rounds when [fuel] bounds
    [part.length / maxSize]; it issues [k] full-size operations and
    is left either with a remainder of at most [maxSize], every
    operation having succeeded, or right after the first failing
    operation. *)
Lemma while_loop_spec fuel :
  forall w L off addr,
    part w = IOPart.mk L off addr ->
    0 <= L < 2 ^ 32 -> 0 <= off < 2 ^ 32 -> 0 <= addr < 2 ^ 64 ->
    L <= (Z.of_nat fuel + 1) * maxSize ->
    exists k : nat,
      (k <= fuel)%nat /\
      Z.of_nat k * maxSize <= L /\
      (0 < L -> Z.of_nat k * maxSize < L) /\
      (forall i : nat, (i + 1 < k)%nat ->
         0 <= drv (length (chunks w) + i) (nth_full_chunk c maxSize off addr i)) /\
      ((while_loop maxSize drv fuel c w
          = Some (LoopEnd (after_rounds c maxSize L off addr k w)) /\
        L - Z.of_nat k * maxSize <= maxSize /\
        (forall i : nat, (i < k)%nat ->
           0 <= drv (length (chunks w) + i) (nth_full_chunk c maxSize off addr i)))
       \/
       (while_loop maxSize drv fuel c w
          = Some (LoopFailed (after_rounds c maxSize L off addr k w)) /\
        (1 <= k)%nat /\
        drv (length (chunks w) + (k - 1))
            (nth_full_chunk c maxSize off addr (k - 1)) < 0)).
Proof.
  induction fuel as [|fuel IH]; intros w L off addr Hp HL Ho Ha Hfuel.
  - exists 0%nat. simpl. rewrite Hp. simpl.
    destruct (Z.ltb_spec maxSize L); [lia|].
    rewrite after_rounds_0 by assumption.
    repeat split; try lia. left. repeat split; try lia.
  - simpl. rewrite Hp. simpl.
    destruct (Z.ltb_spec maxSize L) as [Hlt|Hge].
    + set (ch := mkChunk (cap_file c) off (Int.uint32 maxSize) addr (cap_upstream c)).
      assert (Hch : ch = nth_full_chunk c maxSize off addr 0).
      { unfold ch, nth_full_chunk. simpl. rewrite !Z.add_0_r.
        rewrite !uint32_small, uint64_small by lia. reflexivity. }
      set (w1 := with_part
                   (IOPart.mk (Int.uint32 (L - maxSize)) (Int.uint32 (off + maxSize))
                              (Int.uint64 (addr + maxSize)))
                   (with_chunks (chunks w ++ [ch]) w)).
      assert (Hw1 : forall k,
                 after_rounds c maxSize (L - maxSize) (Int.uint32 (off + maxSize))
                   (Int.uint64 (addr + maxSize)) k w1
                 = after_rounds c maxSize L off addr (S k) w).
      { intros k. apply after_rounds_S; try reflexivity.
        unfold w1. simpl. now rewrite Hch. }
      destruct (Z.ltb_spec (drv (length (chunks w)) ch) 0) as [Hneg|Hnn].
      * exists 1%nat. repeat split; try lia.
        right. split; [|split; [lia|]].
        -- f_equal. f_equal. rewrite <- (Hw1 0%nat).
           unfold w1. rewrite after_rounds_0; [reflexivity| | |].
           ++ simpl. rewrite (uint32_small (L - maxSize)) by lia. reflexivity.
           ++ apply Z.mod_pos_bound. lia.
           ++ apply Z.mod_pos_bound. lia.
        -- simpl. rewrite Nat.add_0_r, <- Hch. exact Hneg.
      * destruct (IH w1 (L - maxSize) (Int.uint32 (off + maxSize))
                     (Int.uint64 (addr + maxSize))) as (k & Hk & HkL & HkL' & Hpre & Hcase).
        { unfold w1. simpl. rewrite (uint32_small (L - maxSize)) by lia. reflexivity. }
        { lia. }
        { apply Z.mod_pos_bound. lia. }
        { apply Z.mod_pos_bound. lia. }
        { lia. }
        assert (Hlen : length (chunks w1) = S (length (chunks w))).
        { unfold w1. simpl. rewrite length_app. simpl. lia. }
        assert (Hnth : forall i,
                   nth_full_chunk c maxSize (Int.uint32 (off + maxSize))
                     (Int.uint64 (addr + maxSize)) i
                   = nth_full_chunk c maxSize off addr (S i)).
        { intros i. unfold nth_full_chunk. rewrite uint32_add_l, uint64_add_l.
          f_equal; f_equal; lia. }
        assert (Hshift : forall i : nat, (i < S k)%nat ->
                   (forall j : nat, (j < k)%nat ->
                      0 <= drv (length (chunks w1) + j)
                             (nth_full_chunk c maxSize (Int.uint32 (off + maxSize))
                                (Int.uint64 (addr + maxSize)) j)) ->
                   0 <= drv (length (chunks w) + i) (nth_full_chunk c maxSize off addr i)).
        { intros i Hi Hall. destruct i as [|i].
          - rewrite Nat.add_0_r, <- Hch. exact Hnn.
          - specialize (Hall i ltac:(lia)). rewrite Hlen, Hnth in Hall.
            replace (length (chunks w) + S i)%nat with (S (length (chunks w)) + i)%nat by lia.
            exact Hall. }
        exists (S k). split; [lia|]. split; [lia|]. split; [intros; lia|].
        split.
        { intros i Hi. destruct i as [|i].
          - rewrite Nat.add_0_r, <- Hch. exact Hnn.
          - specialize (Hpre i ltac:(lia)). rewrite Hlen, Hnth in Hpre.
            replace (length (chunks w) + S i)%nat with (S (length (chunks w)) + i)%nat by lia.
            exact Hpre. }
        destruct Hcase as [(Hrun & Hrem & Hok)|(Hrun & Hk1 & Hbad)].
        -- left. split; [|split; [lia|]].
           ++ fold w1. rewrite Hrun, Hw1. reflexivity.
           ++ intros i Hi. apply Hshift; [lia|exact Hok].
        -- right. split; [|split; [lia|]].
           ++ fold w1. rewrite Hrun, Hw1. reflexivity.
           ++ rewrite Hlen, Hnth in Hbad.
              replace (length (chunks w) + (S k - 1))%nat
                with (S (length (chunks w)) + (k - 1))%nat by lia.
              replace (S k - 1)%nat with (S (k - 1)) by lia. exact Hbad.
    + exists 0%nat. rewrite after_rounds_0 by assumption.
      repeat split; try lia. left. repeat split; try lia.
Qed.

End Loop.

(** ** Lists of chunks *)

Lemma full_chunks_length c M off addr k : length (full_chunks c M off addr k) = k.
Proof. unfold full_chunks. now rewrite length_map, length_seq. Qed.





Lemma full_chunks_lookup c M off addr k (i : nat) ch :
  full_chunks c M off addr k !! i = Some ch ->
  (i < k)%nat /\ ch = nth_full_chunk c M off addr i.
Proof.
  unfold full_chunks. rewrite list_lookup_fmap. intros H.
  destruct (seq 0 k !! i) as [j|] eqn:Hj; [|discriminate].
  apply lookup_seq in Hj. destruct Hj as [-> Hlt]. simpl in H.
  inversion H. split; [lia|reflexivity].
Qed.

(** ** The readiness callback *)

Section Callback.
Variable maxSize : Z.
Variable drv : nat -> Chunk -> Z.
Hypothesis maxSize_pos : 0 < maxSize.

Lemma loop_fuel_enough w :
  0 <= IOPart.length (part w) ->
  IOPart.length (part w) <= (Z.of_nat (loop_fuel maxSize w) + 1) * maxSize.
Proof.
  intros H. unfold loop_fuel. rewrite Z2Nat.id by (apply Z.div_pos; lia).
  pose proof (Z.mul_succ_div_gt (IOPart.length (part w)) maxSize maxSize_pos). lia.
Qed.

(** The four ways through one invocation that passes the [revents]
    test: abort inside the loop, failure of the tail, complete tail,
    incomplete tail. *)
Lemma callback_spec c revents w intf L off addr :
  part w = IOPart.mk L off addr ->
  0 <= L < 2 ^ 32 -> 0 <= off < 2 ^ 32 -> 0 <= addr < 2 ^ 64 ->
  Z.land revents (Z.lor EPOLLIN EPOLLOUT) <> 0 ->
  exists k : nat,
    Z.of_nat k * maxSize <= L /\
    (0 < L -> Z.of_nat k * maxSize < L) /\
    (forall i : nat, (i + 1 < k)%nat ->
       0 <= drv (length (chunks w) + i) (nth_full_chunk c maxSize off addr i)) /\
    ((callback maxSize drv c revents w intf
        = Some (respond_error (cap_hdr c) (after_rounds c maxSize L off addr k w) intf) /\
      (1 <= k)%nat /\
      drv (length (chunks w) + (k - 1)) (nth_full_chunk c maxSize off addr (k - 1)) < 0)
     \/
     (L - Z.of_nat k * maxSize <= maxSize /\
      (forall i : nat, (i < k)%nat ->
         0 <= drv (length (chunks w) + i) (nth_full_chunk c maxSize off addr i)) /\
      let rc := drv (length (chunks w) + k) (tail_chunk c maxSize L off addr k) in
      let w2 := after_tail c maxSize L off addr k w in
      ((rc < 0 /\
        callback maxSize drv c revents w intf
          = Some (respond_error (cap_hdr c) w2 intf))
       \/
       (0 <= rc /\ Int.int32 (L - Z.of_nat k * maxSize) = rc /\
        callback maxSize drv c revents w intf
          = Some (DMA.deleteIOInstance (DMA.setResponseReceived true intf)
                    (sendPLDMRespMsg (cap_hdr c) PLDM_SUCCESS (cap_origLength c) w2)))
       \/
       (0 <= rc /\ Int.int32 (L - Z.of_nat k * maxSize) <> rc /\
        callback maxSize drv c revents w intf = Some (w2, intf))))).
Proof.
  intros Hp HL Ho Ha Hrev.
  destruct (while_loop_spec maxSize drv c maxSize_pos (loop_fuel maxSize w)
              w L off addr Hp HL Ho Ha) as (k & _ & HkL & HkL' & Hpre & Hcase).
  { pose proof (loop_fuel_enough w) as H. rewrite Hp in H. simpl in H. apply H. lia. }
  exists k. split; [exact HkL|]. split; [exact HkL'|]. split; [exact Hpre|].
  unfold callback. destruct (Z.eqb_spec (Z.land revents (Z.lor EPOLLIN EPOLLOUT)) 0);
    [contradiction|].
  destruct Hcase as [(Hrun & Hrem & Hok)|(Hrun & Hk1 & Hbad)].
  - right. split; [exact Hrem|]. split; [exact Hok|]. rewrite Hrun. cbv zeta.
    assert (Hlen : length (chunks (after_rounds c maxSize L off addr k w))
                   = (length (chunks w) + k)%nat).
    { unfold after_rounds. simpl. now rewrite length_app, full_chunks_length. }
    assert (Hw2 : with_chunks
                    (chunks (after_rounds c maxSize L off addr k w)
                      ++ [tail_chunk c maxSize L off addr k])
                    (after_rounds c maxSize L off addr k w)
                  = after_tail c maxSize L off addr k w).
    { unfold after_tail. f_equal. unfold after_rounds. simpl.
      now rewrite <- app_assoc. }
    unfold transferDataHost.
    change (part (after_rounds c maxSize L off addr k w))
      with (IOPart.mk (L - Z.of_nat k * maxSize)
              (Int.uint32 (off + Z.of_nat k * maxSize))
              (Int.uint64 (addr + Z.of_nat k * maxSize))).
    cbn [IOPart.length IOPart.offset IOPart.address].
    fold (tail_chunk c maxSize L off addr k). rewrite Hlen, Hw2.
    destruct (Z.ltb_spec (drv (length (chunks w) + k)
                            (tail_chunk c maxSize L off addr k)) 0) as [Hneg|Hnn].
    + left. split; [exact Hneg|reflexivity].
    + destruct (Z.eqb_spec (Int.int32 (L - Z.of_nat k * maxSize))
                  (drv (length (chunks w) + k) (tail_chunk c maxSize L off addr k)))
        as [Heq|Hne].
      * right. left. split; [exact Hnn|]. split; [exact Heq|reflexivity].
      * right. right. split; [exact Hnn|]. split; [exact Hne|reflexivity].
  - left. rewrite Hrun. split; [reflexivity|]. split; [exact Hk1|exact Hbad].
Qed.

(** The callback always returns: the loop is never cut short. *)
Lemma callback_total c revents w intf :
  0 <= IOPart.length (part w) < 2 ^ 32 ->
  0 <= IOPart.offset (part w) < 2 ^ 32 ->
  0 <= IOPart.address (part w) < 2 ^ 64 ->
  exists r, callback maxSize drv c revents w intf = Some r.
Proof.
  intros HL Ho Ha.
  destruct (Z.eq_dec (Z.land revents (Z.lor EPOLLIN EPOLLOUT)) 0) as [Hz|Hnz].
  - unfold callback. rewrite Hz. simpl. eauto.
  - destruct (part w) as [L off addr] eqn:Hp. simpl in *.
    destruct (callback_spec c revents w intf L off addr Hp HL Ho Ha Hnz)
      as (k & _ & _ & _ & [(H & _)|(_ & _ & [(_ & H)|[(_ & _ & H)|(_ & _ & H)]])]);
      rewrite H; eauto.
Qed.

End Callback.

(** ** What the callbacks leave untouched *)

Lemma frame_refl w : frame w w.
Proof. unfold frame. tauto. Qed.

Lemma frame_trans w1 w2 w3 : frame w1 w2 -> frame w2 w3 -> frame w1 w3.
Proof.
  unfold frame. intros (?&?&?&?&?&?) (?&?&?&?&?&?).
  repeat (split; [congruence|]). auto.
Qed.

Lemma frame_send h cc len w : frame w (sendPLDMRespMsg h cc len w).
Proof. unfold sendPLDMRespMsg. destruct (respInterface h); unfold frame; simpl; tauto. Qed.

Lemma frame_transfer drv fd off len addr up w :
  frame w (snd (transferDataHost drv fd off len addr up w)).
Proof. unfold frame. simpl. tauto. Qed.

Lemma frame_round w cs L off addr :
  frame w (with_part (IOPart.mk (Int.uint32 L) (Int.uint32 off) (Int.uint64 addr))
             (with_chunks cs w)).
Proof.
  unfold frame, part_in_range. simpl. repeat split; try reflexivity;
    apply Z.mod_pos_bound; lia.
Qed.

Lemma while_loop_frame M drv c fuel :
  forall w x, while_loop M drv fuel c w = Some x -> frame w (exit_world x).
Proof.
  induction fuel as [|fuel IH]; intros w x; simpl.
  - destruct (M <? IOPart.length (part w)); [discriminate|].
    intros [= <-]. apply frame_refl.
  - destruct (M <? IOPart.length (part w)).
    + match goal with
      | |- context [with_part ?p (with_chunks ?cs w)] =>
          pose proof (frame_round w cs (IOPart.length (part w) - M)
                        (IOPart.offset (part w) + M)
                        (IOPart.address (part w) + M)) as Hr
      end.
      destruct (_ <? 0).
      * intros [= <-]. exact Hr.
      * intros H. apply IH in H. eapply frame_trans; eassumption.
    + intros [= <-]. apply frame_refl.
Qed.

(** An invocation of the readiness callback changes the log, the
    responses and the plan, and then either leaves the session object
    alone or runs [deleteIOInstance] on it, after setting the latch on
    the success path. *)
Lemma callback_cases M drv c revents w d w' d' :
  callback M drv c revents w d = Some (w', d') ->
  exists wm, frame w wm /\
    ((w', d') = (wm, d) \/
     (w', d') = DMA.deleteIOInstance d wm \/
     (w', d') = DMA.deleteIOInstance (DMA.setResponseReceived true d) wm).
Proof.
  unfold callback. destruct (_ =? 0).
  { intros [= <- <-]. exists w. split; [apply frame_refl|]. now left. }
  destruct (while_loop M drv (loop_fuel M w) c w) as [x|] eqn:Hloop; [|discriminate].
  apply while_loop_frame in Hloop. destruct x as [w1|w1]; simpl in Hloop.
  - match goal with
    | |- context [transferDataHost drv ?a ?b ?l ?e ?f w1] =>
        pose proof (frame_transfer drv a b l e f w1) as Ht;
        destruct (transferDataHost drv a b l e f w1) as [rc w2] eqn:Hcall
    end.
    simpl in Ht. destruct (rc <? 0).
    + intros [= H]. exists (sendPLDMRespMsg (cap_hdr c) PLDM_ERROR 0 w2). split.
      * eapply frame_trans; [eassumption|]. eapply frame_trans; [eassumption|].
        apply frame_send.
      * right. left. unfold respond_error in H. now rewrite H.
    + destruct (_ =? rc).
      * intros [= H].
        exists (sendPLDMRespMsg (cap_hdr c) PLDM_SUCCESS (cap_origLength c) w2). split.
        -- eapply frame_trans; [eassumption|]. eapply frame_trans; [eassumption|].
           apply frame_send.
        -- right. right. now rewrite H.
      * intros [= <- <-]. exists w2. split.
        -- eapply frame_trans; eassumption.
        -- now left.
  - intros [= H]. exists (sendPLDMRespMsg (cap_hdr c) PLDM_ERROR 0 w1). split.
    + eapply frame_trans; [eassumption|apply frame_send].
    + right. left. unfold respond_error in H. now rewrite H.
Qed.

Lemma timerCb_cases c w d :
  exists wm, frame w wm /\
    (timerCb c w d = (wm, d) \/ timerCb c w d = DMA.deleteIOInstance d wm).
Proof.
  unfold timerCb. destruct (negb _).
  - exists (sendPLDMRespMsg (cap_hdr c) PLDM_ERROR 0 w). split; [apply frame_send|].
    now right.
  - exists w. split; [apply frame_refl|]. now left.
Qed.

(** ** The session invariant *)

Section Invariant.
Variables (w0 : World) (r : Request) (e : Env).

Lemma inv_frame w w' d :
  session_inv w0 r e w d -> frame w w' -> session_inv w0 r e w' d.
Proof.
  intros [] (Hf & Hm & Hi & Ht & Hn & Hp).
  constructor; try assumption; try (rewrite ?Hf, ?Hi, ?Ht; assumption).
  now apply Hp.
Qed.

Lemma inv_latch w d b :
  session_inv w0 r e w d -> session_inv w0 r e w (DMA.setResponseReceived b d).
Proof. intros []. constructor; assumption. Qed.

Lemma inv_deleteIOInstance w d :
  session_inv w0 r e w d ->
  session_inv w0 r e (fst (DMA.deleteIOInstance d w)) (snd (DMA.deleteIOInstance d w)).
Proof.
  intros [Hp Hio Htm Hs Hi Ht Hsrc Hx Hf].
  unfold DMA.deleteIOInstance, io_ids, timer_ids, registered_io in *.
  destruct d as [rr ma xf sf pal rc ip ipb tm ml]; simpl in *.
  destruct tm as [tm|]; destruct ip as [io|]; simpl in *;
    destruct Hs as [Hs|Hs]; try discriminate; subst; simpl in *;
    constructor; simpl; auto.
  all: set_solver.
Qed.

Lemma inv_dispatch M drv ev w d w' d' :
  session_inv w0 r e w d ->
  dispatch M drv ev w d = Some (w', d') ->
  session_inv w0 r e w' d'.
Proof.
  intros Hinv. destruct ev as [revents|]; simpl.
  - destruct (registered_io d) as [io|]; [|intros [= <- <-]; exact Hinv].
    intros H. apply callback_cases in H. destruct H as (wm & Hfr & [H|[H|H]]).
    + inversion H; subst. eapply inv_frame; eassumption.
    + pose proof (inv_deleteIOInstance wm d (inv_frame _ _ _ Hinv Hfr)) as Hd.
      rewrite <- H in Hd. exact Hd.
    + pose proof (inv_deleteIOInstance wm _
                    (inv_latch _ _ true (inv_frame _ _ _ Hinv Hfr))) as Hd.
      rewrite <- H in Hd. exact Hd.
  - destruct (DMA.timer d) as [tm|]; [|intros [= <- <-]; exact Hinv].
    destruct (timerCb_cases (timer_callback tm) w d) as (wm & Hfr & [H|H]);
      rewrite H; intros [= Heq].
    + inversion Heq; subst. eapply inv_frame; eassumption.
    + pose proof (inv_deleteIOInstance wm d (inv_frame _ _ _ Hinv Hfr)) as Hd.
      rewrite Heq in Hd. exact Hd.
Qed.

Lemma inv_run M drv evs :
  forall w d w' d',
    session_inv w0 r e w d ->
    run M drv evs w d = Some (w', d') ->
    session_inv w0 r e w' d'.
Proof.
  induction evs as [|ev evs IH]; intros w d w' d' Hinv; simpl.
  - intros [= <- <-]. exact Hinv.
  - destruct (dispatch M drv ev w d) as [[w1 d1]|] eqn:Hd; [|discriminate].
    intros H. eapply IH; [|exact H]. eapply inv_dispatch; eassumption.
Qed.

End Invariant.

(** ** Start of a session *)

Lemma DMA_fresh ps len : fresh (DMA.DMA ps len).
Proof. unfold fresh. simpl. tauto. Qed.

(** Whatever the surroundings decide, [transferAll] on a session object
    returns with the invariant established, without having issued a
    DMA operation. *)
Lemma transferAll_inv d0 r e w0 :
  well_typed r -> fresh d0 ->
  exists w1 d1,
    transferAll (Some d0) r e w0 = (w1, Some d1) /\
    session_inv w0 r e w1 d1 /\ chunks w1 = chunks w0 /\
    mappings w1 = mappings w0 /\ DMA.memAddr d1 = DMA.memAddr d0.
Proof.
  intros (HL & Ho & Ha) (Hip & Hipb & Htm).
  destruct d0 as [rr ma xf sf pal rc ip ipb tm ml]; simpl in *; subst.
  unfold transferAll, DMA.getNewXdmaFd, DMA.initTimer, respond_error,
    DMA.deleteIOInstance, DMA.insertIOInstance, sendPLDMRespMsg. simpl.
  destruct (Z.ltb_spec (env_opened e) 0) as [Hneg|Hnn].
  - destruct (Z.leb_spec 0 (env_opened e)); [lia|].
    destruct (respInterface (req_hdr r)); simpl;
      (eexists _, _; split; [reflexivity|]; split; [|simpl; tauto]);
      constructor; unfold part_in_range, io_ids, timer_ids, registered_io;
      simpl; auto; try discriminate; set_solver.
  - destruct (Z.leb_spec 0 (env_opened e)); [|lia].
    destruct (env_timer_throws e); simpl.
    + destruct (respInterface (req_hdr r)); simpl;
        (eexists _, _; split; [reflexivity|]; split; [|simpl; tauto]);
        constructor; unfold part_in_range, io_ids, timer_ids, registered_io;
        simpl; auto; try discriminate; set_solver.
    + destruct (env_io_throws e); simpl.
      * destruct (respInterface (req_hdr r)); simpl;
          (eexists _, _; split; [reflexivity|]; split; [|simpl; tauto]);
          constructor; unfold part_in_range, io_ids, timer_ids, registered_io;
          simpl; auto; try discriminate; set_solver.
      * eexists _, _; split; [reflexivity|]; split; [|simpl; tauto].
        constructor; unfold part_in_range, io_ids, timer_ids, registered_io;
          simpl; auto; try discriminate;
          try (intros ? [= <-]; reflexivity); set_solver.
Qed.

(** When the device opens and both event sources can be created, the
    session is armed: plan stored, timer and IO source alive, nothing
    sent. *)
Lemma transferAll_started d0 r e w0 :
  fresh d0 ->
  0 <= env_opened e -> env_timer_throws e = false -> env_io_throws e = false ->
  exists w1 d1 io tm,
    transferAll (Some d0) r e w0 = (w1, Some d1) /\
    part w1 = IOPart.mk (req_length r) (req_offset r) (req_address r) /\
    sent w1 = sent w0 /\ chunks w1 = chunks w0 /\
    DMA.iotPtr d1 = Some io /\ io_callback io = capture_of r /\
    io_fd io = env_opened e /\ io_events io = Z.lor EPOLLIN EPOLLOUT /\
    DMA.timer d1 = Some tm /\ timer_callback tm = capture_of r /\
    timer_time tm = env_now e + 20 /\ timer_interval tm = 1 /\
    timer_id tm ∈ timers w1 /\ io_id io ∈ io_sources w1 /\
    DMA.responseReceived d1 = DMA.responseReceived d0.
Proof.
  intros (Hip & Hipb & Htm) Hfd Ht Hi.
  destruct d0 as [rr ma xf sf pal rc ip ipb tm ml]; simpl in *; subst.
  unfold transferAll, DMA.getNewXdmaFd, DMA.initTimer, DMA.insertIOInstance.
  simpl. rewrite Ht, Hi.
  destruct (Z.ltb_spec (env_opened e) 0); [lia|].
  destruct (Z.leb_spec 0 (env_opened e)); [|lia]. simpl.
  eexists _, _, _, _. split; [reflexivity|]. simpl.
  repeat split; try reflexivity; set_solver.
Qed.

(** ** Whole sessions *)

Section Sessions.
Variable maxSize : Z.
Variable drv : nat -> Chunk -> Z.
Hypothesis maxSize_pos : 0 < maxSize.

Lemma dispatch_total w0 r e ev w d :
  session_inv w0 r e w d ->
  exists w' d', dispatch maxSize drv ev w d = Some (w', d').
Proof.
  intros Hinv. destruct ev as [revents|]; simpl.
  - destruct (registered_io d) as [io|]; [|eauto].
    destruct (inv_part _ _ _ _ _ Hinv) as (HL & Ho & Ha).
    destruct (callback_total maxSize drv maxSize_pos (io_callback io) revents w d
                HL Ho Ha) as ([w' d'] & H).
    eauto.
  - destruct (DMA.timer d) as [tm|]; [|eauto].
    destruct (timerCb (timer_callback tm) w d) as [w' d']. eauto.
Qed.

Lemma run_total w0 r e evs :
  forall w d,
    session_inv w0 r e w d ->
    exists w' d', run maxSize drv evs w d = Some (w', d').
Proof.
  induction evs as [|ev evs IH]; intros w d Hinv; simpl; [eauto|].
  destruct (dispatch_total w0 r e ev w d Hinv) as (w1 & d1 & Hd). rewrite Hd.
  apply IH. eapply inv_dispatch; eassumption.
Qed.

(** A session always reaches its destructor, and the invariant holds
    of the state the destructor is run on. *)
Lemma session_reaches_drop d0 r e evs w0 :
  well_typed r -> fresh d0 ->
  exists w d,
    session maxSize drv d0 r e evs w0 = Some (DMA.destroy d w) /\
    session_inv w0 r e w d.
Proof.
  intros Hr Hd.
  destruct (transferAll_inv d0 r e w0 Hr Hd) as (w1 & d1 & Hstart & Hinv & _).
  destruct (run_total w0 r e evs w1 d1 Hinv) as (w2 & d2 & Hrun).
  exists w2, d2. split.
  - unfold session. rewrite Hstart, Hrun. reflexivity.
  - eapply inv_run; eassumption.
Qed.

End Sessions.

(** ** The destructor *)

Lemma destroy_open_fds d w :
  open_fds (fst (DMA.destroy d w))
  = open_fds w ∖ closed_by_destructor (DMA.xdmaFd d)
               ∖ closed_by_destructor (DMA.sourceFd d).
Proof.
  unfold DMA.destroy, closed_by_destructor.
  destruct d as [rr ma xf sf pal rc ip ipb tm ml]; simpl.
  destruct ip, ipb, tm; simpl;
    destruct (0 <? xf); simpl; destruct (0 <? sf); simpl;
    apply leibniz_equiv; set_solver.
Qed.

Lemma destroy_handles d w :
  DMA.iotPtr (snd (DMA.destroy d w)) = None /\
  DMA.iotPtrbc (snd (DMA.destroy d w)) = None /\
  DMA.timer (snd (DMA.destroy d w)) = None /\
  mappings (fst (DMA.destroy d w)) = mappings w /\
  sent (fst (DMA.destroy d w)) = sent w /\
  chunks (fst (DMA.destroy d w)) = chunks w.
Proof.
  unfold DMA.destroy.
  destruct d as [rr ma xf sf pal rc ip ipb tm ml]; simpl.
  destruct ip, ipb, tm; simpl;
    destruct (0 <? xf); simpl; destruct (0 <? sf); simpl; tauto.
Qed.

Lemma destroy_sources w0 r e w d :
  session_inv w0 r e w d ->
  io_sources (fst (DMA.destroy d w)) ⊆ io_sources w0 /\
  timers (fst (DMA.destroy d w)) ⊆ timers w0.
Proof.
  intros [Hp Hio Htm Hs Hi Ht Hsrc Hx Hf].
  unfold DMA.destroy, io_ids, timer_ids, registered_io in *.
  destruct d as [rr ma xf sf pal rc ip ipb tm ml]; simpl in *.
  destruct ip, ipb, tm; destruct Hs as [Hs|Hs]; try discriminate; subst;
    simpl in *;
    destruct (0 <? env_opened e); simpl; destruct (0 <? req_file r); simpl;
    split; set_solver.
Qed.

(** ** Descriptors *)

Lemma deleteIOInstance_open_fds d w :
  open_fds (fst (DMA.deleteIOInstance d w)) = open_fds w /\
  DMA.sourceFd (snd (DMA.deleteIOInstance d w)) = DMA.sourceFd d /\
  DMA.xdmaFd (snd (DMA.deleteIOInstance d w)) = DMA.xdmaFd d.
Proof.
  unfold DMA.deleteIOInstance.
  destruct d as [rr ma xf sf pal rc [io|] ipb [tm|] ml]; simpl; tauto.
Qed.

Lemma dispatch_open_fds M drv ev w d w' d' :
  dispatch M drv ev w d = Some (w', d') -> open_fds w' = open_fds w.
Proof.
  destruct ev as [revents|]; simpl.
  - destruct (registered_io d) as [io|]; [|now intros [= <- <-]].
    intros H. apply callback_cases in H.
    destruct H as (wm & (Hf & _) & [H|[H|H]]).
    + now inversion H; subst.
    + pose proof (deleteIOInstance_open_fds d wm) as (Hd & _).
      rewrite <- H in Hd. simpl in Hd. congruence.
    + pose proof (deleteIOInstance_open_fds (DMA.setResponseReceived true d) wm)
        as (Hd & _).
      rewrite <- H in Hd. simpl in Hd. congruence.
  - destruct (DMA.timer d) as [tm|]; [|now intros [= <- <-]].
    destruct (timerCb_cases (timer_callback tm) w d) as (wm & (Hf & _) & [H|H]);
      rewrite H; intros [= Heq].
    + now inversion Heq; subst.
    + pose proof (deleteIOInstance_open_fds d wm) as (Hd & _).
      rewrite Heq in Hd. simpl in Hd. congruence.
Qed.

Lemma run_open_fds M drv evs :
  forall w d w' d',
    run M drv evs w d = Some (w', d') -> open_fds w' = open_fds w.
Proof.
  induction evs as [|ev evs IH]; intros w d w' d'; simpl.
  - now intros [= <- <-].
  - destruct (dispatch M drv ev w d) as [[w1 d1]|] eqn:Hd; [|discriminate].
    intros H. apply IH in H. apply dispatch_open_fds in Hd. congruence.
Qed.

Lemma transferAll_open_fds d0 r e w0 w1 o :
  transferAll (Some d0) r e w0 = (w1, o) -> open_fds w0 ⊆ open_fds w1.
Proof.
  unfold transferAll, DMA.getNewXdmaFd, DMA.initTimer, respond_error,
    DMA.deleteIOInstance, DMA.insertIOInstance, sendPLDMRespMsg. simpl.
  destruct d0 as [rr ma xf sf pal rc [io|] ipb [tm|] ml]; simpl;
    destruct (env_opened e <? 0), (0 <=? env_opened e), (env_timer_throws e),
      (env_io_throws e), (respInterface (req_hdr r));
    simpl; intros [= <- <-]; simpl; set_solver.
Qed.

Lemma zero_not_closed fd : 0 ∉ closed_by_destructor fd.
Proof.
  unfold closed_by_destructor. destruct (Z.ltb_spec 0 fd); set_solver by lia.
Qed.

Lemma destroy_keeps_zero d w :
  0 ∈ open_fds w -> 0 ∈ open_fds (fst (DMA.destroy d w)).
Proof.
  intros H. rewrite destroy_open_fds.
  pose proof (zero_not_closed (DMA.xdmaFd d)).
  pose proof (zero_not_closed (DMA.sourceFd d)). set_solver.
Qed.

(** ** Page alignment *)

Lemma ceil_div_split L ps :
  0 < ps -> 0 <= L ->
  (L / ps * ps < L -> ceil_div L ps = L / ps + 1) /\
  (L <= L / ps * ps -> ceil_div L ps = L / ps /\ L / ps * ps = L).
Proof.
  intros Hps HL. unfold ceil_div.
  pose proof (Z.div_mod L ps ltac:(lia)) as Hdm.
  pose proof (Z.mod_pos_bound L ps Hps) as Hm.
  split; intros H.
  - symmetry. apply (Z.div_unique_pos _ _ _ (L mod ps - 1)); lia.
  - split; [|lia]. symmetry. apply (Z.div_unique_pos _ _ _ (ps - 1)); lia.
Qed.

(** As long as the rounded size fits 32 bits the constructor computes
    the ceiling of the length to a page multiple. *)
Lemma pageAlignedLength_in_range ps L :
  0 < ps -> 0 <= L -> ceil_div L ps * ps < 2 ^ 32 ->
  DMA.pageAlignedLength (DMA.DMA ps L) = ceil_div L ps * ps.
Proof.
  intros Hps HL Hfit. simpl.
  destruct (ceil_div_split L ps Hps HL) as [Hlt Hge].
  assert (Hq : 0 <= L / ps) by (apply Z.div_pos; lia).
  assert (Hle : L / ps <= ceil_div L ps).
  { unfold ceil_div. apply Z.div_le_mono; lia. }
  assert (Hqs : 0 <= L / ps * ps <= ceil_div L ps * ps) by nia.
  assert (Hq32 : L / ps < 2 ^ 32) by nia.
  rewrite (uint32_small (L / ps)) by lia.
  rewrite (uint32_small (L / ps * ps)) by lia.
  destruct (Z.ltb_spec (L / ps * ps) L) as [H|H].
  - rewrite (Hlt H) in *. rewrite uint32_small; lia.
  - destruct (Hge H) as [-> _]. reflexivity.
Qed.

(** * The claims *)

(** C8 fails on the code, which has a defect: the constructor is meant to size the
    buffer to [ceil(L / page_size) * page_size].  For the 32-bit length
    4294967295 and 4 KiB pages the ceiling is 4294967296, which does
    not fit [uint32_t pageAlignedLength]: the addition of the extra
    page wraps and the stored size is 0.  Lemma
    [pageAlignedLength_in_range] covers the lengths whose ceiling
    fits. *)
Theorem C8_page_aligned_length_wraps :
  DMA.pageAlignedLength (DMA.DMA page4k 4294967295) = 0 /\
  ceil_div 4294967295 page4k * page4k = 4294967296 /\
  DMA.pageAlignedLength (DMA.DMA page4k 8192) = 8192 /\
  DMA.pageAlignedLength (DMA.DMA page4k 4097) = 8192.
Proof. repeat split; reflexivity. Qed.

(** C5 fails on the code, which has a defect: sessions should not
    influence each other, but the plan lives in the function-local [static IOPart
    part].  Starting session B overwrites the plan session A stored;
    when A's device becomes ready, A transfers B's range (offset 4096,
    64 bytes, host address 8192) on A's file 10 and reports success
    with A's length 32. *)
Theorem C5_plan_shared_between_sessions :
  part (fst after_start_A) = IOPart.mk 32 0 4096 /\
  part (fst after_start_B) = IOPart.mk 64 4096 8192 /\
  transfers_of A_ready_after_B = Some [mkChunk 10 4096 64 8192 true] /\
  responses_of A_ready_after_B = Some [mkResp 1 6 PLDM_SUCCESS 32 100].
Proof. repeat split; vm_compute; reflexivity. Qed.

(** C10: the destructor closes a stored descriptor exactly when its
    value is greater than 0; descriptor 0, whether handed over through
    [setDMASourceFd] or [setXDMASourceFd], is left open by the
    destructor, and no path of a session (setup error, failed chunk,
    success, watchdog, any further event, drop) closes it.  A session
    on a well-typed request always reaches its drop. *)
Theorem C10_descriptor_zero_never_closed M drv d0 r e evs w0 :
  0 ∈ open_fds w0 ->
  (forall d w,
     open_fds (fst (DMA.destroy d w))
     = open_fds w ∖ closed_by_destructor (DMA.xdmaFd d)
                  ∖ closed_by_destructor (DMA.sourceFd d)) /\
  (forall d w, 0 ∈ open_fds w ->
     0 ∈ open_fds (fst (DMA.destroy (DMA.setDMASourceFd 0 d) w)) /\
     0 ∈ open_fds (fst (DMA.destroy (DMA.setXDMASourceFd 0 d) w))) /\
  (forall w' d', session M drv d0 r e evs w0 = Some (w', d') -> 0 ∈ open_fds w') /\
  (0 < M -> well_typed r -> fresh d0 ->
   exists w' d', session M drv d0 r e evs w0 = Some (w', d')).
Proof.
  intros H0. split; [apply destroy_open_fds|].
  split; [intros d w H; split; now apply destroy_keeps_zero|].
  split.
  - intros w' d' Hs. unfold session in Hs.
    destruct (transferAll (Some d0) r e w0) as [w1 [d1|]] eqn:Hstart; [|discriminate].
    destruct (run M drv evs w1 d1) as [[w2 d2]|] eqn:Hrun; [|discriminate].
    apply transferAll_open_fds in Hstart. apply run_open_fds in Hrun.
    injection Hs as Hs.
    assert (Hw' : w' = fst (DMA.destroy d2 w2)) by now rewrite Hs.
    rewrite Hw'. apply destroy_keeps_zero. rewrite Hrun. set_solver.
  - intros HM Hr Hd.
    destruct (session_reaches_drop M drv HM d0 r e evs w0 Hr Hd) as (w & d & Hs & _).
    exists (fst (DMA.destroy d w)), (snd (DMA.destroy d w)).
    rewrite Hs. now destruct (DMA.destroy d w).
Qed.

Lemma C10_witness :
  0 ∈ open_fds (world_with_fd 0) /\
  exists w' d',
    session MiB16 drv_complete (DMA.setXDMASourceFd 0 (DMA.DMA page4k 4096))
      (mkReq 0 0 4096 2147483648 true sample_hdr) env_ok
      [Readiness EPOLLIN] (world_with_fd 0) = Some (w', d') /\
    0 ∈ open_fds w'.
Proof.
  assert (H0 : 0 ∈ open_fds (world_with_fd 0)) by (vm_compute; reflexivity).
  split; [exact H0|].
  destruct (C10_descriptor_zero_never_closed MiB16 drv_complete
              (DMA.setXDMASourceFd 0 (DMA.DMA page4k 4096))
              (mkReq 0 0 4096 2147483648 true sample_hdr) env_ok
              [Readiness EPOLLIN] (world_with_fd 0) H0)
    as (_ & _ & Hsafe & Htotal).
  destruct Htotal as (w' & d' & Hs).
  - reflexivity.
  - unfold well_typed. simpl. lia.
  - unfold fresh. simpl. tauto.
  - exists w', d'. split; [exact Hs|]. exact (Hsafe w' d' Hs).
Defined.

(** C7 does not hold as stated: the device cannot be opened; [transferAll]
    sends PLDM_ERROR with length 0 and returns, and the source file,
    descriptor 7, is still open at that point. *)
Lemma C7_source_fd_open_at_return :
  7 ∈ open_fds
        (fst (transferAll (Some (DMA.DMA page4k 16))
                (mkReq 7 0 16 2147483648 true sample_hdr)
                (mkEnv (-1) 1000 false false) (world_with_fd 7))) /\
  sent (fst (transferAll (Some (DMA.DMA page4k 16))
               (mkReq 7 0 16 2147483648 true sample_hdr)
               (mkEnv (-1) 1000 false false) (world_with_fd 7)))
  = [response_of sample_hdr PLDM_ERROR 0].
Proof. split; vm_compute; reflexivity. Qed.

(** C7 as the code has it: when the DMA device descriptor cannot be obtained,
    [transferAll] sends exactly one response, PLDM_ERROR with length
    field 0, issues no DMA operation and creates neither timer nor IO
    registration, so that no later event reaches the session; it
    returns with the source descriptor still open and stored in the
    session, whose destructor closes it when the session is dropped,
    provided the descriptor is greater than 0. *)
Theorem C7_device_unavailable d0 r e w0 :
  fresh d0 -> env_opened e < 0 -> respInterface (req_hdr r) = true ->
  exists w1 d1,
    transferAll (Some d0) r e w0 = (w1, Some d1) /\
    sent w1 = sent w0 ++ [response_of (req_hdr r) PLDM_ERROR 0] /\
    chunks w1 = chunks w0 /\
    DMA.timer d1 = None /\ registered_io d1 = None /\
    (forall M drv evs, run M drv evs w1 d1 = Some (w1, d1)) /\
    open_fds w1 = open_fds w0 /\ DMA.sourceFd d1 = req_file r /\
    (0 < req_file r -> req_file r ∉ open_fds (fst (DMA.destroy d1 w1))).
Proof.
  intros (Hip & Hipb & Htm) Hfd Hresp.
  destruct d0 as [rr ma xf sf pal rc ip ipb tm ml]; simpl in *; subst.
  unfold transferAll, DMA.getNewXdmaFd, respond_error, DMA.deleteIOInstance,
    sendPLDMRespMsg. simpl. rewrite Hresp.
  destruct (Z.ltb_spec (env_opened e) 0); [|lia].
  destruct (Z.leb_spec 0 (env_opened e)); [lia|]. simpl.
  eexists _, _. split; [reflexivity|]. simpl.
  repeat (split; [reflexivity|]). split.
  - intros M drv evs. induction evs as [|[revents|] evs IH]; simpl; auto.
  - repeat (split; [reflexivity|]). intros Hpos.
    rewrite destroy_open_fds. simpl. unfold closed_by_destructor.
    destruct (Z.ltb_spec 0 (req_file r)); [set_solver|lia].
Qed.

Lemma C7_witness :
  exists w1 d1,
    transferAll (Some (DMA.DMA page4k 16))
      (mkReq 7 0 16 2147483648 true sample_hdr) (mkEnv (-1) 1000 false false)
      (world_with_fd 7) = (w1, Some d1) /\
    sent w1 = [] ++ [response_of sample_hdr PLDM_ERROR 0] /\
    chunks w1 = [] /\
    DMA.timer d1 = None /\ registered_io d1 = None /\
    (forall M drv evs, run M drv evs w1 d1 = Some (w1, d1)) /\
    open_fds w1 = {[7]} /\ DMA.sourceFd d1 = 7 /\
    (0 < 7 -> 7 ∉ open_fds (fst (DMA.destroy d1 w1))).
Proof.
  apply (C7_device_unavailable (DMA.DMA page4k 16)
           (mkReq 7 0 16 2147483648 true sample_hdr)
           (mkEnv (-1) 1000 false false) (world_with_fd 7)).
  - apply DMA_fresh.
  - simpl. lia.
  - reflexivity.
Defined.

(** C9: a session whose device opens and whose event sources can be
    created holds, when [transferAll] returns, a live timer set to
    expire 20 seconds after the current time, with 1 second as its
    second duration.  When that timer fires on a session whose latch
    is unset, one response with PLDM_ERROR and length field 0 is sent
    and the timer is gone; when the latch is set, the expiry changes
    nothing. *)
Theorem C9_watchdog d0 r e w0 :
  fresh d0 ->
  0 <= env_opened e -> env_timer_throws e = false -> env_io_throws e = false ->
  respInterface (req_hdr r) = true ->
  exists w1 d1 tm,
    transferAll (Some d0) r e w0 = (w1, Some d1) /\
    DMA.timer d1 = Some tm /\ timer_id tm ∈ timers w1 /\
    timer_time tm = env_now e + 20 /\ timer_interval tm = 1 /\
    DMA.responseReceived d1 = DMA.responseReceived d0 /\
    forall M drv w d,
      DMA.timer d = Some tm ->
      (DMA.responseReceived d = false ->
       exists w' d',
         dispatch M drv Expiry w d = Some (w', d') /\
         sent w' = sent w ++ [response_of (req_hdr r) PLDM_ERROR 0] /\
         chunks w' = chunks w /\ DMA.timer d' = None /\
         timer_id tm ∉ timers w') /\
      (DMA.responseReceived d = true ->
       dispatch M drv Expiry w d = Some (w, d)).
Proof.
  intros Hfresh Hfd Ht Hi Hresp.
  destruct (transferAll_started d0 r e w0 Hfresh Hfd Ht Hi)
    as (w1 & d1 & io & tm & Hstart & _ & _ & _ & _ & _ & _ & _ & Htm & Hcb
        & Htime & Hint & Hlive & _ & Hrr).
  exists w1, d1, tm. repeat (split; [assumption|]).
  intros M drv w d Hd. simpl. rewrite Hd. unfold timerCb, DMA.getResponseReceived.
  split; intros Hlatch; rewrite Hlatch; simpl; [|reflexivity].
  unfold respond_error, DMA.deleteIOInstance, sendPLDMRespMsg.
  rewrite Hcb. simpl. rewrite Hresp.
  destruct d as [rr ma xf sf pal rc ip ipb tm' ml]; simpl in *; subst.
  destruct ip; simpl; eexists _, _; (split; [reflexivity|]); simpl;
    repeat split; set_solver.
Qed.

Lemma C9_witness :
  exists w1 d1 tm,
    transferAll (Some (DMA.DMA page4k 16))
      (mkReq 7 0 16 2147483648 true sample_hdr) env_ok
      (world_with_fd 7) = (w1, Some d1) /\
    DMA.timer d1 = Some tm /\ timer_id tm ∈ timers w1 /\
    timer_time tm = 1000 + 20 /\ timer_interval tm = 1 /\
    DMA.responseReceived d1 = false /\
    forall M drv w d,
      DMA.timer d = Some tm ->
      (DMA.responseReceived d = false ->
       exists w' d',
         dispatch M drv Expiry w d = Some (w', d') /\
         sent w' = sent w ++ [response_of sample_hdr PLDM_ERROR 0] /\
         chunks w' = chunks w /\ DMA.timer d' = None /\
         timer_id tm ∉ timers w') /\
      (DMA.responseReceived d = true ->
       dispatch M drv Expiry w d = Some (w, d)).
Proof.
  apply (C9_watchdog (DMA.DMA page4k 16)
           (mkReq 7 0 16 2147483648 true sample_hdr)
           env_ok (world_with_fd 7)).
  - apply DMA_fresh.
  - simpl. lia.
  - reflexivity.
  - reflexivity.
  - reflexivity.
Defined.

(** ** Chunks of one invocation *)

Lemma ceil_div_lower L M k : 0 < M -> k * M < L -> k + 1 <= ceil_div L M.
Proof. intros HM H. unfold ceil_div. apply Z.div_le_lower_bound; lia. Qed.

Lemma ceil_div_upper L M k : 0 < M -> L - k * M <= M -> ceil_div L M <= k + 1.
Proof.
  intros HM H. unfold ceil_div.
  enough (Hlt : (L + M - 1) / M < k + 2) by lia.
  apply Z.div_lt_upper_bound; lia.
Qed.

Lemma respond_error_logs h w d :
  chunks (fst (respond_error h w d)) = chunks w /\
  sent (fst (respond_error h w d))
  = sent w ++ (if respInterface h then [response_of h PLDM_ERROR 0] else []).
Proof.
  unfold respond_error, DMA.deleteIOInstance, sendPLDMRespMsg, response_of.
  destruct d as [rr ma xf sf pal rc [io|] ipb [tm|] ml]; simpl;
    destruct (respInterface h); simpl; rewrite ?app_nil_r; tauto.
Qed.

Lemma deleteIOInstance_logs d w :
  chunks (fst (DMA.deleteIOInstance d w)) = chunks w /\
  sent (fst (DMA.deleteIOInstance d w)) = sent w /\
  DMA.responseReceived (snd (DMA.deleteIOInstance d w)) = DMA.responseReceived d.
Proof.
  unfold DMA.deleteIOInstance.
  destruct d as [rr ma xf sf pal rc [io|] ipb [tm|] ml]; simpl; tauto.
Qed.

Section Invocation.
Variable maxSize : Z.
Variable drv : nat -> Chunk -> Z.
Hypothesis maxSize_pos : 0 < maxSize.

(** The operations of one invocation: [k] full chunks and, unless
    the last of them failed, the tail. *)
Lemma invocation_chunks c revents w d L off addr :
  part w = IOPart.mk L off addr ->
  0 <= L < 2 ^ 32 -> 0 <= off < 2 ^ 32 -> 0 <= addr < 2 ^ 64 ->
  Z.land revents (Z.lor EPOLLIN EPOLLOUT) <> 0 ->
  exists w' d' (k : nat),
    callback maxSize drv c revents w d = Some (w', d') /\
    Z.of_nat k * maxSize <= L /\ (0 < L -> Z.of_nat k * maxSize < L) /\
    ((chunks w' = chunks w ++ full_chunks c maxSize off addr k /\
      (1 <= k)%nat /\
      drv (length (chunks w) + (k - 1))
          (nth_full_chunk c maxSize off addr (k - 1)) < 0)
     \/
     (chunks w' = chunks w ++ full_chunks c maxSize off addr k
                           ++ [tail_chunk c maxSize L off addr k] /\
      L - Z.of_nat k * maxSize <= maxSize)).
Proof.
  intros Hp HL Ho Ha Hrev.
  destruct (callback_spec maxSize drv maxSize_pos c revents w d L off addr
              Hp HL Ho Ha Hrev) as (k & HkL & HkL' & _ & Hcase).
  destruct Hcase as [(Hrun & Hk1 & Hbad)|(Hrem & _ & Htail)].
  - rewrite Hrun. eexists _, _, k. split; [f_equal; apply surjective_pairing|].
    split; [exact HkL|]. split; [exact HkL'|]. left.
    split; [|split; assumption].
    now rewrite (proj1 (respond_error_logs _ _ _)).
  - cbv zeta in Htail.
    destruct Htail as [(_ & Hrun)|[(_ & _ & Hrun)|(_ & _ & Hrun)]];
      rewrite Hrun;
      (eexists _, _, k; split; [f_equal; apply surjective_pairing|];
       split; [exact HkL|]; split; [exact HkL'|]; right; split; [|exact Hrem]).
    + now rewrite (proj1 (respond_error_logs _ _ _)).
    + rewrite (proj1 (deleteIOInstance_logs _ _)).
      unfold sendPLDMRespMsg. now destruct (respInterface (cap_hdr c)).
    + reflexivity.
Qed.

End Invocation.



(** * Further properties of the transfer code *)

(** ** Responses of one invocation *)

Lemma while_loop_sent M drv c fuel :
  forall w x, while_loop M drv fuel c w = Some x -> sent (exit_world x) = sent w.
Proof.
  induction fuel as [|fuel IH]; intros w x; simpl.
  - destruct (M <? IOPart.length (part w)); [discriminate|]. now intros [= <-].
  - destruct (M <? IOPart.length (part w)); [|now intros [= <-]].
    destruct (_ <? 0).
    + now intros [= <-].
    + intros H. apply IH in H. exact H.
Qed.

Lemma deleteIOInstance_object d w1 w2 :
  snd (DMA.deleteIOInstance d w1) = snd (DMA.deleteIOInstance d w2).
Proof.
  unfold DMA.deleteIOInstance.
  destruct d as [rr ma xf sf pal rc [io|] ipb [tm|] ml]; reflexivity.
Qed.

Lemma deleteIOInstance_fields d w :
  DMA.timer (snd (DMA.deleteIOInstance d w)) = None /\
  DMA.iotPtr (snd (DMA.deleteIOInstance d w)) = None /\
  DMA.responseReceived (snd (DMA.deleteIOInstance d w)) = DMA.responseReceived d /\
  registered_io (snd (DMA.deleteIOInstance d w)) =
    match DMA.iotPtr d with Some io => Some io | None => DMA.iotPtrbc d end.
Proof.
  unfold DMA.deleteIOInstance, registered_io.
  destruct d as [rr ma xf sf pal rc [io|] ipb [tm|] ml]; simpl; tauto.
Qed.

Lemma send_resp_if h cc len w :
  sent (sendPLDMRespMsg h cc len w) = sent w ++ resp_if h cc len /\
  chunks (sendPLDMRespMsg h cc len w) = chunks w /\
  part (sendPLDMRespMsg h cc len w) = part w.
Proof.
  unfold sendPLDMRespMsg, resp_if, response_of.
  destruct (respInterface h); simpl; rewrite ?app_nil_r; tauto.
Qed.

(** One invocation of the readiness callback sends nothing and leaves
    the session object alone, or sends the error response, or sets the
    latch and sends the success response; in the last two cases the
    object has been through [deleteIOInstance]. *)
Lemma callback_outcome M drv c revents w d w' d' :
  callback M drv c revents w d = Some (w', d') ->
  (sent w' = sent w /\ d' = d) \/
  (sent w' = sent w ++ resp_if (cap_hdr c) PLDM_ERROR 0 /\
   d' = snd (DMA.deleteIOInstance d w)) \/
  (sent w' = sent w ++ resp_if (cap_hdr c) PLDM_SUCCESS (cap_origLength c) /\
   d' = snd (DMA.deleteIOInstance (DMA.setResponseReceived true d) w)).
Proof.
  unfold callback. destruct (_ =? 0).
  { intros [= <- <-]. left. tauto. }
  destruct (while_loop M drv (loop_fuel M w) c w) as [x|] eqn:Hloop; [|discriminate].
  apply while_loop_sent in Hloop. destruct x as [w1|w1]; simpl in Hloop.
  - unfold transferDataHost. cbv zeta.
    destruct (_ <? 0).
    + intros [= H]. right. left.
      pose proof (f_equal fst H) as H1. pose proof (f_equal snd H) as H2.
      simpl in H1, H2. subst w' d'. split.
      * rewrite (proj2 (respond_error_logs _ _ _)). simpl. now rewrite Hloop.
      * unfold respond_error. apply deleteIOInstance_object.
    + destruct (_ =? _).
      * intros [= H]. right. right.
        pose proof (f_equal fst H) as H1. pose proof (f_equal snd H) as H2.
        simpl in H1, H2. subst w' d'. split.
        -- rewrite (proj1 (proj2 (deleteIOInstance_logs _ _))).
           rewrite (proj1 (send_resp_if _ _ _ _)). simpl. now rewrite Hloop.
        -- apply deleteIOInstance_object.
      * intros [= <- <-]. left. simpl. tauto.
  - intros [= H]. right. left.
    pose proof (f_equal fst H) as H1. pose proof (f_equal snd H) as H2.
    simpl in H1, H2. subst w' d'. split.
    + rewrite (proj2 (respond_error_logs _ _ _)). now rewrite Hloop.
    + unfold respond_error. apply deleteIOInstance_object.
Qed.

Lemma timerCb_outcome c w d :
  (timerCb c w d = (w, d) /\ DMA.responseReceived d = true) \/
  (DMA.responseReceived d = false /\
   sent (fst (timerCb c w d)) = sent w ++ resp_if (cap_hdr c) PLDM_ERROR 0 /\
   chunks (fst (timerCb c w d)) = chunks w /\
   snd (timerCb c w d) = snd (DMA.deleteIOInstance d w)).
Proof.
  unfold timerCb, DMA.getResponseReceived.
  destruct (DMA.responseReceived d); simpl; [left; tauto|right].
  split; [reflexivity|].
  destruct (respond_error_logs (cap_hdr c) w d) as (Hc & Hs).
  split; [exact Hs|]. split; [exact Hc|].
  unfold respond_error. apply deleteIOInstance_object.
Qed.

(** ** Responses over the life of a session *)

Section Answers.
Variables (w0 : World) (r : Request) (e : Env) (tm0 : Timer).
Hypothesis has_transport : respInterface (req_hdr r) = true.

Let err := response_of (req_hdr r) PLDM_ERROR 0.
Let ok := response_of (req_hdr r) PLDM_SUCCESS (req_length r).

Lemma err_not_ok : err <> ok.
Proof. unfold err, ok, response_of, PLDM_ERROR, PLDM_SUCCESS. congruence. Qed.

Lemma answer_inv_error w d w' d' news :
  answer_inv w0 r tm0 w d news ->
  sent w' = sent w ++ [err] ->
  DMA.timer d' = None -> DMA.responseReceived d' = DMA.responseReceived d ->
  answer_inv w0 r tm0 w' d' (news ++ [err]).
Proof.
  intros [Hs Ha Hd Hl Hk] Hs' Ht Hr. constructor.
  - rewrite Hs', Hs. now rewrite app_assoc.
  - intros H. now apply app_eq_nil in H as [_ H].
  - intros _. exact Ht.
  - rewrite Hr, Hl, in_app_iff. simpl. pose proof err_not_ok. tauto.
  - apply Forall_app. split; [exact Hk|]. constructor; [now left|constructor].
Qed.

Lemma answer_inv_success w d w' d' news :
  answer_inv w0 r tm0 w d news ->
  sent w' = sent w ++ [ok] ->
  DMA.timer d' = None -> DMA.responseReceived d' = true ->
  answer_inv w0 r tm0 w' d' (news ++ [ok]).
Proof.
  intros [Hs Ha Hd Hl Hk] Hs' Ht Hr. constructor.
  - rewrite Hs', Hs. now rewrite app_assoc.
  - intros H. now apply app_eq_nil in H as [_ H].
  - intros _. exact Ht.
  - rewrite Hr, in_app_iff. simpl. tauto.
  - apply Forall_app. split; [exact Hk|]. constructor; [now right|constructor].
Qed.

Lemma answer_inv_dispatch wi M drv ev w d w' d' news :
  session_inv wi r e w d ->
  answer_inv w0 r tm0 w d news ->
  dispatch M drv ev w d = Some (w', d') ->
  exists news', answer_inv w0 r tm0 w' d' news' /\
                (news' = news \/ news' = news ++ [err] \/ news' = news ++ [ok]).
Proof.
  intros Hinv Hans. destruct ev as [revents|]; simpl.
  - destruct (registered_io d) as [io|] eqn:Hio.
    2:{ intros [= <- <-]. exists news. split; [exact Hans|now left]. }
    rewrite (inv_io_cb _ _ _ _ _ Hinv io Hio). intros H.
    apply callback_outcome in H. simpl in H. unfold resp_if in H.
    rewrite has_transport in H.
    destruct H as [(Hs & ->)|[(Hs & ->)|(Hs & ->)]].
    + exists news. split; [|now left]. destruct Hans as [Hs0 Ha Hd Hl Hk].
      constructor; try assumption. now rewrite Hs.
    + exists (news ++ [err]). split; [|right; now left].
      destruct (deleteIOInstance_fields d w) as (Ht & _ & Hr & _).
      eapply answer_inv_error; eassumption.
    + exists (news ++ [ok]). split; [|right; now right].
      destruct (deleteIOInstance_fields (DMA.setResponseReceived true d) w)
        as (Ht & _ & Hr & _).
      eapply answer_inv_success; eassumption.
  - destruct (DMA.timer d) as [tm|] eqn:Htm.
    2:{ intros [= <- <-]. exists news. split; [exact Hans|now left]. }
    rewrite (inv_timer_cb _ _ _ _ _ Hinv tm Htm).
    destruct news as [|x news].
    2:{ destruct Hans as [_ _ Hd _ _]. rewrite Hd in Htm; [discriminate|easy]. }
    destruct (ai_armed _ _ _ _ _ _ Hans eq_refl) as (_ & Hlatch).
    destruct (timerCb_outcome (capture_of r) w d) as [(_ & Hr)|(Hr & Hs & _ & Hd)].
    { rewrite Hlatch in Hr. discriminate. }
    intros [= H].
    pose proof (f_equal fst H) as H1. pose proof (f_equal snd H) as H2.
    simpl in H1, H2. subst w' d'.
    exists ([] ++ [err]). split; [|right; now left].
    simpl in Hs. unfold resp_if in Hs. rewrite has_transport in Hs.
    destruct (deleteIOInstance_fields d w) as (Ht & _ & Hrr & _).
    eapply answer_inv_error; [exact Hans|exact Hs| |]; now rewrite Hd.
Qed.

Lemma answer_inv_run wi M drv evs :
  forall w d w' d' news,
    session_inv wi r e w d ->
    answer_inv w0 r tm0 w d news ->
    run M drv evs w d = Some (w', d') ->
    exists news', answer_inv w0 r tm0 w' d' news'.
Proof.
  induction evs as [|ev evs IH]; intros w d w' d' news Hinv Hans; simpl.
  - intros [= <- <-]. eauto.
  - destruct (dispatch M drv ev w d) as [[w1 d1]|] eqn:Hd; [|discriminate].
    intros H.
    destruct (answer_inv_dispatch wi M drv ev w d w1 d1 news Hinv Hans Hd)
      as (news1 & Hans1 & _).
    eapply IH; [|exact Hans1|exact H]. eapply inv_dispatch; eassumption.
Qed.

End Answers.

Lemma started_invariants d0 r e w0 :
  well_typed r -> fresh d0 -> DMA.responseReceived d0 = false ->
  0 <= env_opened e -> env_timer_throws e = false -> env_io_throws e = false ->
  exists w1 d1 tm,
    transferAll (Some d0) r e w0 = (w1, Some d1) /\
    session_inv w0 r e w1 d1 /\ answer_inv w0 r tm w1 d1 [] /\
    chunks w1 = chunks w0 /\
    part w1 = IOPart.mk (req_length r) (req_offset r) (req_address r).
Proof.
  intros Hr Hfresh Hlatch Hfd Ht Hi.
  destruct (transferAll_started d0 r e w0 Hfresh Hfd Ht Hi)
    as (w1 & d1 & io & tm & Hstart & Hpart & Hsent & Hchunks & _ & _ & _ & _
        & Htm & _ & _ & _ & _ & _ & Hrr).
  destruct (transferAll_inv d0 r e w0 Hr Hfresh) as (w1' & d1' & Hstart' & Hinv & _).
  rewrite Hstart in Hstart'. injection Hstart' as <- <-.
  exists w1, d1, tm. repeat (split; [assumption|]). split; [|split; assumption].
  constructor.
  - now rewrite app_nil_r.
  - intros _. split; [exact Htm|congruence].
  - intros H. now elim H.
  - simpl. rewrite Hrr, Hlatch. split; [discriminate|tauto].
  - constructor.
Qed.

(** The latch tells whether the transfer succeeded: at every point of
    the life of a session with a transport, [getResponseReceived] is
    true exactly when the session has sent a PLDM_SUCCESS response; all
    it ever sends are PLDM_ERROR with length 0 and PLDM_SUCCESS with the
    request length. *)
Theorem latch_iff_success_sent M drv d0 r e evs w0 :
  0 < M -> well_typed r -> fresh d0 -> DMA.responseReceived d0 = false ->
  0 <= env_opened e -> env_timer_throws e = false -> env_io_throws e = false ->
  respInterface (req_hdr r) = true ->
  exists w d news,
    live_session M drv d0 r e evs w0 = Some (w, d) /\
    sent w = sent w0 ++ news /\
    (DMA.getResponseReceived d = true <->
     In (response_of (req_hdr r) PLDM_SUCCESS (req_length r)) news) /\
    Forall (fun x => x = response_of (req_hdr r) PLDM_ERROR 0 \/
                     x = response_of (req_hdr r) PLDM_SUCCESS (req_length r)) news.
Proof.
  intros HM Hr Hfresh Hlatch Hfd Ht Hi Hresp.
  destruct (started_invariants d0 r e w0 Hr Hfresh Hlatch Hfd Ht Hi)
    as (w1 & d1 & tm & Hstart & Hinv & Hans & _).
  destruct (run_total M drv HM w0 r e evs w1 d1 Hinv) as (w & d & Hrun).
  destruct (answer_inv_run w0 r e tm Hresp w0 M drv evs w1 d1 w d [] Hinv Hans Hrun)
    as (news & [Hs _ _ Hl Hk]).
  exists w, d, news. unfold live_session. rewrite Hstart.
  repeat split; try assumption; apply Hl.
Qed.

Lemma latch_iff_success_sent_witness :
  exists w d news,
    live_session MiB16 (drv_fail_at 0) (DMA.DMA page4k 16)
      (mkReq 7 0 16 2147483648 true sample_hdr) env_ok
      [Readiness EPOLLIN; Readiness EPOLLIN] (world_with_fd 7) = Some (w, d) /\
    sent w = [] ++ news /\
    (DMA.getResponseReceived d = true <->
     In (response_of sample_hdr PLDM_SUCCESS 16) news) /\
    Forall (fun x => x = response_of sample_hdr PLDM_ERROR 0 \/
                     x = response_of sample_hdr PLDM_SUCCESS 16) news.
Proof.
  apply (latch_iff_success_sent MiB16 (drv_fail_at 0) (DMA.DMA page4k 16)
           (mkReq 7 0 16 2147483648 true sample_hdr) env_ok
           [Readiness EPOLLIN; Readiness EPOLLIN] (world_with_fd 7)).
  - reflexivity.
  - unfold well_typed. simpl. lia.
  - apply DMA_fresh.
  - reflexivity.
  - simpl. lia.
  - reflexivity.
  - reflexivity.
  - reflexivity.
Defined.

(** The watchdog stays armed exactly as long as the session has not
    answered: at every point of its life the session object holds its
    timer if and only if no response has been sent, and in that case an
    expiry of the timer sends PLDM_ERROR with length 0 as the first
    response. *)
Theorem watchdog_armed_until_answer M drv d0 r e evs w0 :
  0 < M -> well_typed r -> fresh d0 -> DMA.responseReceived d0 = false ->
  0 <= env_opened e -> env_timer_throws e = false -> env_io_throws e = false ->
  respInterface (req_hdr r) = true ->
  exists w d news,
    live_session M drv d0 r e evs w0 = Some (w, d) /\
    sent w = sent w0 ++ news /\
    (news = [] <-> DMA.timer d <> None) /\
    (news = [] ->
     exists w' d',
       dispatch M drv Expiry w d = Some (w', d') /\
       sent w' = sent w0 ++ [response_of (req_hdr r) PLDM_ERROR 0] /\
       chunks w' = chunks w /\ DMA.timer d' = None).
Proof.
  intros HM Hr Hfresh Hlatch Hfd Ht Hi Hresp.
  destruct (started_invariants d0 r e w0 Hr Hfresh Hlatch Hfd Ht Hi)
    as (w1 & d1 & tm & Hstart & Hinv & Hans & _).
  destruct (run_total M drv HM w0 r e evs w1 d1 Hinv) as (w & d & Hrun).
  pose proof (inv_run w0 r e M drv evs w1 d1 w d Hinv Hrun) as Hinv'.
  destruct (answer_inv_run w0 r e tm Hresp w0 M drv evs w1 d1 w d [] Hinv Hans Hrun)
    as (news & Hans').
  exists w, d, news. unfold live_session. rewrite Hstart.
  split; [exact Hrun|]. split; [apply Hans'|]. split.
  - split.
    + intros Hn. rewrite (proj1 (ai_armed _ _ _ _ _ _ Hans' Hn)). discriminate.
    + intros Htm. destruct news as [|x news]; [reflexivity|].
      exfalso. apply Htm. now apply (ai_disarmed _ _ _ _ _ _ Hans').
  - intros Hn. destruct (ai_armed _ _ _ _ _ _ Hans' Hn) as (Htm & Hl).
    simpl. rewrite Htm. rewrite (inv_timer_cb _ _ _ _ _ Hinv' tm Htm).
    destruct (timerCb_outcome (capture_of r) w d) as [(_ & Hr')|(_ & Hs & Hc & Hd)].
    { rewrite Hl in Hr'. discriminate. }
    eexists _, _. split; [f_equal; apply surjective_pairing|].
    simpl in Hs. unfold resp_if in Hs. rewrite Hresp in Hs.
    rewrite Hs, (ai_sent _ _ _ _ _ _ Hans'), Hn, app_nil_r.
    split; [reflexivity|]. split; [exact Hc|].
    rewrite Hd. apply deleteIOInstance_fields.
Qed.

Lemma watchdog_armed_until_answer_witness :
  exists w d news,
    live_session MiB16 drv_complete (DMA.DMA page4k 16)
      (mkReq 7 0 16 2147483648 true sample_hdr) env_ok
      [Readiness EPOLLERR] (world_with_fd 7) = Some (w, d) /\
    sent w = [] ++ news /\
    (news = [] <-> DMA.timer d <> None) /\
    (news = [] ->
     exists w' d',
       dispatch MiB16 drv_complete Expiry w d = Some (w', d') /\
       sent w' = [] ++ [response_of sample_hdr PLDM_ERROR 0] /\
       chunks w' = chunks w /\ DMA.timer d' = None).
Proof.
  apply (watchdog_armed_until_answer MiB16 drv_complete (DMA.DMA page4k 16)
           (mkReq 7 0 16 2147483648 true sample_hdr) env_ok
           [Readiness EPOLLERR] (world_with_fd 7)).
  - reflexivity.
  - unfold well_typed. simpl. lia.
  - apply DMA_fresh.
  - reflexivity.
  - simpl. lia.
  - reflexivity.
  - reflexivity.
  - reflexivity.
Defined.

Lemma transferAll_sent d0 r e w0 w1 o :
  transferAll (Some d0) r e w0 = (w1, o) ->
  sent w1 = sent w0 \/ sent w1 = sent w0 ++ resp_if (req_hdr r) PLDM_ERROR 0.
Proof.
  unfold transferAll, DMA.getNewXdmaFd, DMA.initTimer, respond_error,
    DMA.deleteIOInstance, DMA.insertIOInstance, sendPLDMRespMsg, resp_if,
    response_of. simpl.
  destruct d0 as [rr ma xf sf pal rc [io|] ipb [tm|] ml]; simpl;
    destruct (env_opened e <? 0), (0 <=? env_opened e), (env_timer_throws e),
      (env_io_throws e), (respInterface (req_hdr r));
    simpl; intros [= <- <-]; simpl; rewrite ?app_nil_r; tauto.
Qed.

(** Without a transport nothing is ever sent: when
    [responseHdr.respInterface] is null, no path of a session (setup
    error, failed chunk, success, watchdog, drop) hands a message to
    [sendPLDMRespMsg]. *)
Theorem null_transport_sends_nothing M drv d0 r e evs w0 :
  0 < M -> well_typed r -> fresh d0 ->
  respInterface (req_hdr r) = false ->
  exists w d,
    session M drv d0 r e evs w0 = Some (w, d) /\ sent w = sent w0.
Proof.
  intros HM Hr Hfresh Hresp.
  destruct (transferAll_inv d0 r e w0 Hr Hfresh) as (w1 & d1 & Hstart & Hinv & _).
  assert (Hs1 : sent w1 = sent w0).
  { destruct (transferAll_sent _ _ _ _ _ _ Hstart) as [H|H]; [exact H|].
    unfold resp_if in H. rewrite Hresp, app_nil_r in H. exact H. }
  assert (Hrun : forall evs w d, session_inv w0 r e w d -> sent w = sent w0 ->
            exists w' d', run M drv evs w d = Some (w', d') /\ sent w' = sent w0).
  { clear evs. induction evs as [|ev evs IH]; intros w d Hi Hs; simpl; [eauto|].
    destruct (dispatch_total M drv HM w0 r e ev w d Hi) as (w' & d' & Hd).
    rewrite Hd. apply IH; [eapply inv_dispatch; eassumption|].
    destruct ev as [revents|]; simpl in Hd.
    - destruct (registered_io d) as [io|] eqn:Hio; [|now injection Hd as <- <-].
      rewrite (inv_io_cb _ _ _ _ _ Hi io Hio) in Hd.
      apply callback_outcome in Hd. simpl in Hd. unfold resp_if in Hd.
      rewrite Hresp, !app_nil_r in Hd.
      destruct Hd as [(H & _)|[(H & _)|(H & _)]]; congruence.
    - destruct (DMA.timer d) as [tm|] eqn:Htm; [|now injection Hd as <- <-].
      rewrite (inv_timer_cb _ _ _ _ _ Hi tm Htm) in Hd. injection Hd as Hd.
      destruct (timerCb_outcome (capture_of r) w d) as [(H & _)|(_ & H & _)].
      + rewrite H in Hd. injection Hd as <- <-. exact Hs.
      + rewrite Hd in H. simpl in H. unfold resp_if in H.
        rewrite Hresp, app_nil_r in H. congruence. }
  destruct (Hrun evs w1 d1 Hinv Hs1) as (w2 & d2 & Hrun2 & Hs2).
  exists (fst (DMA.destroy d2 w2)), (snd (DMA.destroy d2 w2)).
  unfold session. rewrite Hstart, Hrun2. split.
  - now destruct (DMA.destroy d2 w2).
  - destruct (destroy_handles d2 w2) as (_ & _ & _ & _ & H & _). congruence.
Qed.

Lemma null_transport_sends_nothing_witness :
  exists w d,
    session MiB16 drv_complete (DMA.DMA page4k 16)
      (mkReq 7 0 16 2147483648 true (mkHdr 7 6 false 99)) env_ok
      [Readiness EPOLLIN; Expiry] (world_with_fd 7) = Some (w, d) /\
    sent w = [].
Proof.
  apply (null_transport_sends_nothing MiB16 drv_complete (DMA.DMA page4k 16)
           (mkReq 7 0 16 2147483648 true (mkHdr 7 6 false 99)) env_ok
           [Readiness EPOLLIN; Expiry] (world_with_fd 7)).
  - reflexivity.
  - unfold well_typed. simpl. lia.
  - apply DMA_fresh.
  - reflexivity.
Defined.

(** Wake-ups without [EPOLLIN] and [EPOLLOUT] are ignored: any number
    of readiness events that carry only other bits (an error or a
    hang-up of the device) change neither the world nor the session,
    so such a session is answered by the watchdog, with PLDM_ERROR and
    length 0, and without a single DMA operation. *)
Theorem error_wakeups_left_to_watchdog M drv d0 r e evs w0 :
  well_typed r -> fresh d0 -> DMA.responseReceived d0 = false ->
  0 <= env_opened e -> env_timer_throws e = false -> env_io_throws e = false ->
  respInterface (req_hdr r) = true ->
  Forall no_io_bits evs ->
  exists w1 d1 w2 d2,
    transferAll (Some d0) r e w0 = (w1, Some d1) /\
    run M drv evs w1 d1 = Some (w1, d1) /\
    run M drv (evs ++ [Expiry]) w1 d1 = Some (w2, d2) /\
    sent w2 = sent w0 ++ [response_of (req_hdr r) PLDM_ERROR 0] /\
    chunks w2 = chunks w0.
Proof.
  intros Hr Hfresh Hlatch Hfd Ht Hi Hresp Hev.
  destruct (started_invariants d0 r e w0 Hr Hfresh Hlatch Hfd Ht Hi)
    as (w1 & d1 & tm & Hstart & Hinv & Hans & Hchunks & _).
  assert (Hidle : forall evs', Forall no_io_bits evs' ->
            forall k, run M drv (evs' ++ k) w1 d1 = run M drv k w1 d1).
  { clear Hev. induction evs' as [|ev evs' IH]; intros Hall k; [reflexivity|].
    inversion Hall as [|? ? (revents & -> & Hbits) Hrest]; subst.
    simpl. destruct (registered_io d1) as [io|].
    - unfold callback. rewrite Hbits. simpl. now apply IH.
    - now apply IH. }
  destruct (ai_armed _ _ _ _ _ _ Hans eq_refl) as (Htm & Hl).
  exists w1, d1, (fst (timerCb (timer_callback tm) w1 d1)),
    (snd (timerCb (timer_callback tm) w1 d1)).
  split; [exact Hstart|]. split.
  { rewrite <- (app_nil_r evs). now rewrite Hidle. }
  rewrite (Hidle evs Hev). simpl. rewrite Htm. split.
  { now destruct (timerCb (timer_callback tm) w1 d1). }
  rewrite (inv_timer_cb _ _ _ _ _ Hinv tm Htm).
  destruct (timerCb_outcome (capture_of r) w1 d1) as [(_ & H)|(_ & Hs & Hc & _)].
  { rewrite Hl in H. discriminate. }
  simpl in Hs. unfold resp_if in Hs. rewrite Hresp in Hs.
  rewrite Hs, Hc, (ai_sent _ _ _ _ _ _ Hans), app_nil_r. tauto.
Qed.

Lemma error_wakeups_left_to_watchdog_witness :
  exists w1 d1 w2 d2,
    transferAll (Some (DMA.DMA page4k 16))
      (mkReq 7 0 16 2147483648 true sample_hdr) env_ok (world_with_fd 7)
    = (w1, Some d1) /\
    run MiB16 drv_complete [Readiness EPOLLERR; Readiness (Z.lor EPOLLERR EPOLLHUP)]
      w1 d1 = Some (w1, d1) /\
    run MiB16 drv_complete
      ([Readiness EPOLLERR; Readiness (Z.lor EPOLLERR EPOLLHUP)] ++ [Expiry]) w1 d1
    = Some (w2, d2) /\
    sent w2 = [] ++ [response_of sample_hdr PLDM_ERROR 0] /\
    chunks w2 = [].
Proof.
  apply (error_wakeups_left_to_watchdog MiB16 drv_complete (DMA.DMA page4k 16)
           (mkReq 7 0 16 2147483648 true sample_hdr) env_ok
           [Readiness EPOLLERR; Readiness (Z.lor EPOLLERR EPOLLHUP)]
           (world_with_fd 7)).
  - unfold well_typed. simpl. lia.
  - apply DMA_fresh.
  - reflexivity.
  - simpl. lia.
  - reflexivity.
  - reflexivity.
  - reflexivity.
  - repeat constructor; eexists; (split; [reflexivity|vm_compute; reflexivity]).
Defined.

Lemma transferAll_open_fds_eq d0 r e w0 w1 o :
  transferAll (Some d0) r e w0 = (w1, o) ->
  open_fds w1 = (if 0 <=? env_opened e then {[env_opened e]} else ∅) ∪ open_fds w0.
Proof.
  unfold transferAll, DMA.getNewXdmaFd, DMA.initTimer, respond_error,
    DMA.deleteIOInstance, DMA.insertIOInstance, sendPLDMRespMsg. simpl.
  destruct d0 as [rr ma xf sf pal rc [io|] ipb [tm|] ml]; simpl;
    destruct (env_opened e <? 0), (0 <=? env_opened e), (env_timer_throws e),
      (env_io_throws e), (respInterface (req_hdr r));
    simpl; intros [= <- <-]; simpl; apply leibniz_equiv; set_solver.
Qed.

(** Descriptors are held until the drop: between the return of
    [transferAll] and the destructor no callback opens or closes a
    descriptor, so the source file and the device stay open also after
    the session has answered. *)
Theorem descriptors_held_until_drop M drv d0 r e evs w0 :
  0 < M -> well_typed r -> fresh d0 ->
  exists w d,
    live_session M drv d0 r e evs w0 = Some (w, d) /\
    open_fds w = (if 0 <=? env_opened e then {[env_opened e]} else ∅) ∪ open_fds w0 /\
    DMA.sourceFd d = req_file r /\ DMA.xdmaFd d = env_opened e.
Proof.
  intros HM Hr Hfresh.
  destruct (transferAll_inv d0 r e w0 Hr Hfresh) as (w1 & d1 & Hstart & Hinv & _).
  destruct (run_total M drv HM w0 r e evs w1 d1 Hinv) as (w & d & Hrun).
  pose proof (inv_run w0 r e M drv evs w1 d1 w d Hinv Hrun) as Hinv'.
  exists w, d. unfold live_session. rewrite Hstart. split; [exact Hrun|].
  rewrite (run_open_fds _ _ _ _ _ _ _ Hrun).
  rewrite (transferAll_open_fds_eq _ _ _ _ _ _ Hstart).
  split; [reflexivity|]. split; apply Hinv'.
Qed.

Lemma descriptors_held_until_drop_witness :
  exists w d,
    live_session MiB16 drv_complete (DMA.DMA page4k 16)
      (mkReq 7 0 16 2147483648 true sample_hdr) env_ok
      [Readiness EPOLLIN; Expiry] (world_with_fd 7) = Some (w, d) /\
    open_fds w = {[5]} ∪ {[7]} /\ DMA.sourceFd d = 7 /\ DMA.xdmaFd d = 5.
Proof.
  apply (descriptors_held_until_drop MiB16 drv_complete (DMA.DMA page4k 16)
           (mkReq 7 0 16 2147483648 true sample_hdr) env_ok
           [Readiness EPOLLIN; Expiry] (world_with_fd 7)).
  - reflexivity.
  - unfold well_typed. simpl. lia.
  - apply DMA_fresh.
Defined.

(** ** Setup failures *)

(** With a null DMA interface [transferAll] answers PLDM_ERROR with
    length 0 and closes the source file itself, whatever the value of
    the descriptor (0 included, unlike the destructor); it touches
    neither the plan nor the event loop, issues no DMA operation and
    returns without a session. *)
Theorem null_interface_closes_file r e w0 :
  exists w1,
    transferAll None r e w0 = (w1, None) /\
    sent w1 = sent w0 ++ resp_if (req_hdr r) PLDM_ERROR 0 /\
    open_fds w1 = open_fds w0 ∖ {[req_file r]} /\
    (req_file r ∉ open_fds w1) /\
    chunks w1 = chunks w0 /\ part w1 = part w0 /\
    io_sources w1 = io_sources w0 /\ timers w1 = timers w0.
Proof.
  eexists. split; [reflexivity|].
  unfold sendPLDMRespMsg, resp_if, response_of.
  destruct (respInterface (req_hdr r)); simpl; rewrite ?app_nil_r;
    (split; [reflexivity|]); (split; [reflexivity|]);
    (split; [set_solver|]); tauto.
Qed.

(** When the device opens but the timer or the IO source cannot be
    created, [transferAll] answers PLDM_ERROR with length 0 once,
    issues no DMA operation and leaves no event source of its own
    behind, so that no later event reaches the session; the device
    descriptor stays open and stored in the session, and the destructor
    closes it at the drop if it is greater than 0. *)
Theorem setup_failure_after_open d0 r e w0 :
  fresh d0 -> 0 <= env_opened e ->
  env_timer_throws e = true \/ env_io_throws e = true ->
  respInterface (req_hdr r) = true ->
  exists w1 d1,
    transferAll (Some d0) r e w0 = (w1, Some d1) /\
    sent w1 = sent w0 ++ [response_of (req_hdr r) PLDM_ERROR 0] /\
    chunks w1 = chunks w0 /\
    DMA.timer d1 = None /\ registered_io d1 = None /\
    (io_sources w1 ⊆ io_sources w0) /\ (timers w1 ⊆ timers w0) /\
    (forall M drv evs, run M drv evs w1 d1 = Some (w1, d1)) /\
    (env_opened e ∈ open_fds w1) /\ DMA.xdmaFd d1 = env_opened e /\
    (0 < env_opened e -> env_opened e ∉ open_fds (fst (DMA.destroy d1 w1))).
Proof.
  intros (Hip & Hipb & Htm) Hfd Hthrow Hresp.
  destruct d0 as [rr ma xf sf pal rc ip ipb tm ml]; simpl in *; subst.
  assert (Hidle : forall w d, DMA.timer d = None -> registered_io d = None ->
            forall M drv evs, run M drv evs w d = Some (w, d)).
  { intros w d Ht Hi M drv evs.
    induction evs as [|[revents|] evs IH]; simpl; rewrite ?Ht, ?Hi; auto. }
  unfold transferAll, DMA.getNewXdmaFd, DMA.initTimer, respond_error,
    DMA.deleteIOInstance, sendPLDMRespMsg. simpl. rewrite Hresp.
  destruct (Z.ltb_spec (env_opened e) 0); [lia|].
  destruct (Z.leb_spec 0 (env_opened e)); [|lia].
  destruct (env_timer_throws e) eqn:Ht; simpl.
  - eexists _, _. split; [reflexivity|]. simpl.
    do 4 (split; [reflexivity|]). do 2 (split; [set_solver|]).
    split; [now apply Hidle|]. split; [set_solver|]. split; [reflexivity|].
    intros Hpos. rewrite destroy_open_fds. simpl. unfold closed_by_destructor.
    destruct (Z.ltb_spec 0 (env_opened e)); [set_solver|lia].
  - destruct Hthrow as [Hthrow|Hthrow]; [discriminate|]. rewrite Hthrow. simpl.
    eexists _, _. split; [reflexivity|]. simpl.
    do 4 (split; [reflexivity|]). do 2 (split; [set_solver|]).
    split; [now apply Hidle|]. split; [set_solver|]. split; [reflexivity|].
    intros Hpos. rewrite destroy_open_fds. simpl. unfold closed_by_destructor.
    destruct (Z.ltb_spec 0 (env_opened e)); [set_solver|lia].
Qed.

Lemma setup_failure_after_open_witness :
  exists w1 d1,
    transferAll (Some (DMA.DMA page4k 16))
      (mkReq 7 0 16 2147483648 true sample_hdr) (mkEnv 5 1000 false true)
      (world_with_fd 7) = (w1, Some d1) /\
    sent w1 = [] ++ [response_of sample_hdr PLDM_ERROR 0] /\
    chunks w1 = [] /\
    DMA.timer d1 = None /\ registered_io d1 = None /\
    (io_sources w1 ⊆ ∅) /\ (timers w1 ⊆ ∅) /\
    (forall M drv evs, run M drv evs w1 d1 = Some (w1, d1)) /\
    (5 ∈ open_fds w1) /\ DMA.xdmaFd d1 = 5 /\
    (0 < 5 -> 5 ∉ open_fds (fst (DMA.destroy d1 w1))).
Proof.
  apply (setup_failure_after_open (DMA.DMA page4k 16)
           (mkReq 7 0 16 2147483648 true sample_hdr) (mkEnv 5 1000 false true)
           (world_with_fd 7)).
  - apply DMA_fresh.
  - simpl. lia.
  - right. reflexivity.
  - reflexivity.
Defined.

(** ** More on the chunks of an invocation *)

(** A request of at most [maxSize] bytes is transferred in one DMA
    operation with exactly the request's descriptor, offset, length,
    host address and direction, and the plan is left as stored.
    [transferAll] has no lower bound of its own: this holds also for
    lengths below [minSize] and for length 0. *)
Theorem short_request_is_one_chunk M drv d0 r e revents w0 :
  0 < M -> fresh d0 ->
  0 <= env_opened e -> env_timer_throws e = false -> env_io_throws e = false ->
  well_typed r -> req_length r <= M ->
  Z.land revents (Z.lor EPOLLIN EPOLLOUT) <> 0 ->
  exists w2 d2,
    first_readiness M drv d0 r e revents w0 = Some (w2, d2) /\
    chunks w2 = chunks w0 ++ [mkChunk (req_file r) (req_offset r) (req_length r)
                                      (req_address r) (req_upstream r)] /\
    part w2 = IOPart.mk (req_length r) (req_offset r) (req_address r).
Proof.
  intros HM Hfresh Hfd Ht Hi (HL & Ho & Ha) Hle Hrev.
  destruct (transferAll_started d0 r e w0 Hfresh Hfd Ht Hi)
    as (w1 & d1 & io & tm & Hstart & Hpart & _ & Hchunks & Hio & Hcb & _).
  destruct (callback_spec M drv HM (io_callback io) revents w1 d1
              (req_length r) (req_offset r) (req_address r) Hpart HL Ho Ha Hrev)
    as (k & HkL & HkL' & _ & Hcase).
  assert (Hk : k = 0%nat) by nia. subst k.
  unfold first_readiness. rewrite Hstart. simpl. unfold registered_io. rewrite Hio.
  assert (Htail : tail_chunk (io_callback io) M (req_length r) (req_offset r)
                    (req_address r) 0
                  = mkChunk (req_file r) (req_offset r) (req_length r)
                      (req_address r) (req_upstream r)).
  { unfold tail_chunk. rewrite Hcb. simpl.
    rewrite !Z.add_0_r, Z.sub_0_r, uint32_small, uint64_small by lia. reflexivity. }
  assert (Hw2 : chunks (after_tail (io_callback io) M (req_length r) (req_offset r)
                          (req_address r) 0 w1)
                = chunks w0 ++ [mkChunk (req_file r) (req_offset r) (req_length r)
                                  (req_address r) (req_upstream r)] /\
                part (after_tail (io_callback io) M (req_length r) (req_offset r)
                        (req_address r) 0 w1)
                = IOPart.mk (req_length r) (req_offset r) (req_address r)).
  { unfold after_tail, after_rounds. simpl. rewrite Htail, Hchunks.
    rewrite !Z.add_0_r, Z.sub_0_r, uint32_small, uint64_small by lia. tauto. }
  destruct Hw2 as (Hc2 & Hp2).
  destruct Hcase as [(_ & Hk1 & _)|(_ & _ & Htl)]; [lia|]. cbv zeta in Htl.
  destruct Htl as [(_ & Hrun)|[(_ & _ & Hrun)|(_ & _ & Hrun)]]; rewrite Hrun.
  - eexists _, _. split; [f_equal; apply surjective_pairing|].
    unfold respond_error.
    destruct (deleteIOInstance_logs d1
                (sendPLDMRespMsg (cap_hdr (io_callback io)) PLDM_ERROR 0
                   (after_tail (io_callback io) M (req_length r) (req_offset r)
                      (req_address r) 0 w1))) as (Hc & _).
    rewrite Hc.
    destruct (send_resp_if (cap_hdr (io_callback io)) PLDM_ERROR 0
                (after_tail (io_callback io) M (req_length r) (req_offset r)
                   (req_address r) 0 w1)) as (_ & Hc' & Hp').
    rewrite Hc'. split; [exact Hc2|].
    unfold DMA.deleteIOInstance. destruct (DMA.timer d1), (DMA.iotPtr _); simpl;
      now rewrite Hp'.
  - eexists _, _. split; [f_equal; apply surjective_pairing|].
    destruct (deleteIOInstance_logs (DMA.setResponseReceived true d1)
                (sendPLDMRespMsg (cap_hdr (io_callback io)) PLDM_SUCCESS
                   (cap_origLength (io_callback io))
                   (after_tail (io_callback io) M (req_length r) (req_offset r)
                      (req_address r) 0 w1))) as (Hc & _).
    rewrite Hc.
    destruct (send_resp_if (cap_hdr (io_callback io)) PLDM_SUCCESS
                (cap_origLength (io_callback io))
                (after_tail (io_callback io) M (req_length r) (req_offset r)
                   (req_address r) 0 w1)) as (_ & Hc' & Hp').
    rewrite Hc'. split; [exact Hc2|].
    unfold DMA.deleteIOInstance.
    destruct (DMA.timer _), (DMA.iotPtr _); simpl; now rewrite Hp'.
  - eexists _, _. split; [reflexivity|]. tauto.
Qed.

Lemma short_request_is_one_chunk_witness :
  exists w2 d2,
    first_readiness MiB16 drv_complete (DMA.DMA page4k 0)
      (mkReq 7 4096 0 2147483648 true sample_hdr) env_ok EPOLLIN (world_with_fd 7)
    = Some (w2, d2) /\
    chunks w2 = [] ++ [mkChunk 7 4096 0 2147483648 true] /\
    part w2 = IOPart.mk 0 4096 2147483648.
Proof.
  apply (short_request_is_one_chunk MiB16 drv_complete (DMA.DMA page4k 0)
           (mkReq 7 4096 0 2147483648 true sample_hdr) env_ok EPOLLIN
           (world_with_fd 7)).
  - reflexivity.
  - apply DMA_fresh.
  - simpl. lia.
  - reflexivity.
  - reflexivity.
  - unfold well_typed. simpl. lia.
  - simpl. unfold MiB16. lia.
  - vm_compute. discriminate.
Defined.

Lemma deleteIOInstance_part d w :
  part (fst (DMA.deleteIOInstance d w)) = part w.
Proof.
  unfold DMA.deleteIOInstance.
  destruct d as [rr ma xf sf pal rc [io|] ipb [tm|] ml]; reflexivity.
Qed.

(** Every chunk of an invocation carries the session's own file
    descriptor and direction; the [i]-th chunk reads or writes the file
    at the request offset plus [i * maxSize] and the host at the request
    address plus [i * maxSize], the sums being taken modulo 2^32 and
    2^64 (no overflow check is made), and no chunk is longer than
    [maxSize]. *)
Theorem chunk_addressing M drv d0 r e revents w0 :
  0 < M -> fresh d0 ->
  0 <= env_opened e -> env_timer_throws e = false -> env_io_throws e = false ->
  well_typed r ->
  Z.land revents (Z.lor EPOLLIN EPOLLOUT) <> 0 ->
  exists w2 d2 new,
    first_readiness M drv d0 r e revents w0 = Some (w2, d2) /\
    chunks w2 = chunks w0 ++ new /\
    forall (i : nat) ch,
      new !! i = Some ch ->
      chunk_fd ch = req_file r /\ chunk_upstream ch = req_upstream r /\
      chunk_offset ch = Int.uint32 (req_offset r + Z.of_nat i * M) /\
      chunk_address ch = Int.uint64 (req_address r + Z.of_nat i * M) /\
      0 <= chunk_length ch <= M.
Proof.
  intros HM Hfresh Hfd Ht Hi (HL & Ho & Ha) Hrev.
  destruct (transferAll_started d0 r e w0 Hfresh Hfd Ht Hi)
    as (w1 & d1 & io & tm & Hstart & Hpart & _ & Hchunks & Hio & Hcb & _).
  destruct (invocation_chunks M drv HM (io_callback io) revents w1 d1
              (req_length r) (req_offset r) (req_address r) Hpart HL Ho Ha Hrev)
    as (w2 & d2 & k & Hrun & HkL & _ & Hcase).
  unfold first_readiness. rewrite Hstart. simpl. unfold registered_io. rewrite Hio.
  rewrite Hchunks in *. rewrite Hcb in *.
  assert (Hfull : forall (i : nat) ch,
             full_chunks (capture_of r) M (req_offset r) (req_address r) k !! i
             = Some ch ->
             chunk_fd ch = req_file r /\ chunk_upstream ch = req_upstream r /\
             chunk_offset ch = Int.uint32 (req_offset r + Z.of_nat i * M) /\
             chunk_address ch = Int.uint64 (req_address r + Z.of_nat i * M) /\
             0 <= chunk_length ch <= M).
  { intros i ch Hl. apply full_chunks_lookup in Hl. destruct Hl as [_ ->].
    simpl. repeat split; lia. }
  destruct Hcase as [(Hnew & _)|(Hnew & Hrem)].
  - exists w2, d2, (full_chunks (capture_of r) M (req_offset r) (req_address r) k).
    split; [exact Hrun|]. split; [exact Hnew|]. exact Hfull.
  - exists w2, d2, (full_chunks (capture_of r) M (req_offset r) (req_address r) k
                    ++ [tail_chunk (capture_of r) M (req_length r) (req_offset r)
                          (req_address r) k]).
    split; [exact Hrun|]. split; [exact Hnew|].
    intros i ch Hl. apply lookup_app_Some in Hl.
    destruct Hl as [Hl|[Hge Hl]]; [now apply Hfull|].
    rewrite full_chunks_length in Hge, Hl.
    destruct (i - k)%nat as [|j] eqn:Hj; [|discriminate].
    injection Hl as <-. replace i with k by lia. simpl. repeat split; lia.
Qed.

Lemma chunk_addressing_witness :
  exists w2 d2 new,
    first_readiness MiB16 drv_complete (DMA.DMA page4k (MiB16 + 512)) request_S2
      env_ok EPOLLOUT (world_with_fd 7) = Some (w2, d2) /\
    chunks w2 = [] ++ new /\
    forall (i : nat) ch,
      new !! i = Some ch ->
      chunk_fd ch = 7 /\ chunk_upstream ch = false /\
      chunk_offset ch = Int.uint32 (0 + Z.of_nat i * MiB16) /\
      chunk_address ch = Int.uint64 (2147483648 + Z.of_nat i * MiB16) /\
      0 <= chunk_length ch <= MiB16.
Proof.
  apply (chunk_addressing MiB16 drv_complete (DMA.DMA page4k (MiB16 + 512))
           request_S2 env_ok EPOLLOUT (world_with_fd 7)).
  - reflexivity.
  - apply DMA_fresh.
  - simpl. lia.
  - reflexivity.
  - reflexivity.
  - unfold well_typed. simpl. unfold MiB16. lia.
  - vm_compute. discriminate.
Defined.

(** The transfer stops at the first failing operation: if the [j]-th
    operation of the plan is the first to return a negative value,
    exactly [j + 1] chunks are issued, the one response is PLDM_ERROR
    with length 0, the watchdog is disarmed and the latch stays
    unset. *)
Theorem abort_at_first_failure M drv d0 r e revents w0 (j : nat) :
  0 < M -> fresh d0 -> DMA.responseReceived d0 = false ->
  0 <= env_opened e -> env_timer_throws e = false -> env_io_throws e = false ->
  respInterface (req_hdr r) = true ->
  well_typed r -> 0 < req_length r ->
  Z.land revents (Z.lor EPOLLIN EPOLLOUT) <> 0 ->
  Z.of_nat j < ceil_div (req_length r) M ->
  (forall i : nat, (i < j)%nat ->
     0 <= drv (length (chunks w0) + i)%nat (planned_chunk r M i)) ->
  drv (length (chunks w0) + j)%nat (planned_chunk r M j) < 0 ->
  exists w2 d2 new,
    first_readiness M drv d0 r e revents w0 = Some (w2, d2) /\
    chunks w2 = chunks w0 ++ new /\ length new = S j /\
    sent w2 = sent w0 ++ [response_of (req_hdr r) PLDM_ERROR 0] /\
    DMA.timer d2 = None /\ DMA.getResponseReceived d2 = false.
Proof.
  intros HM Hfresh Hlatch Hfd Ht Hi Hresp (HL & Ho & Ha) Hpos Hrev Hj Hok Hbad.
  destruct (transferAll_started d0 r e w0 Hfresh Hfd Ht Hi)
    as (w1 & d1 & io & tm & Hstart & Hpart & Hsent & Hchunks & Hio & Hcb & _ & _
        & _ & _ & _ & _ & _ & _ & Hrr).
  destruct (callback_spec M drv HM (io_callback io) revents w1 d1
              (req_length r) (req_offset r) (req_address r) Hpart HL Ho Ha Hrev)
    as (k & HkL & HkL' & Hpre & Hcase).
  specialize (HkL' Hpos).
  pose proof (ceil_div_lower _ _ _ HM HkL') as Hlow.
  unfold first_readiness. rewrite Hstart. simpl. unfold registered_io. rewrite Hio.
  rewrite Hchunks, Hcb in *.
  assert (Hfullp : forall i : nat, Z.of_nat i + 1 < ceil_div (req_length r) M ->
             planned_chunk r M i
             = nth_full_chunk (capture_of r) M (req_offset r) (req_address r) i).
  { intros i Hi'. unfold planned_chunk.
    destruct (Z.ltb_spec (Z.of_nat i + 1) (ceil_div (req_length r) M)); [reflexivity|lia]. }
  assert (Herr : forall w,
             sent (fst (respond_error (req_hdr r) w d1))
             = sent w ++ [response_of (req_hdr r) PLDM_ERROR 0] /\
             chunks (fst (respond_error (req_hdr r) w d1)) = chunks w /\
             DMA.timer (snd (respond_error (req_hdr r) w d1)) = None /\
             DMA.getResponseReceived (snd (respond_error (req_hdr r) w d1)) = false).
  { intros w. destruct (respond_error_logs (req_hdr r) w d1) as (Hc & Hs).
    rewrite Hs, Hc, Hresp. unfold respond_error, DMA.getResponseReceived.
    destruct (deleteIOInstance_fields d1 (sendPLDMRespMsg (req_hdr r) PLDM_ERROR 0 w))
      as (Htm & _ & Hl & _).
    rewrite Htm, Hl, Hrr, Hlatch. tauto. }
  change (cap_hdr (capture_of r)) with (req_hdr r) in *.
  destruct Hcase as [(Hrun & Hk1 & Hfail)|(Hrem & Hall & Htl)].
  - assert (Hjk : j = (k - 1)%nat).
    { destruct (Nat.lt_trichotomy j (k - 1)) as [Hlt|[Heq|Hgt]]; [|exact Heq|].
      - specialize (Hpre j ltac:(lia)). rewrite Hfullp in Hbad by lia. lia.
      - specialize (Hok (k - 1)%nat Hgt). rewrite Hfullp in Hok by lia. lia. }
    rewrite Hrun.
    destruct (Herr (after_rounds (capture_of r) M (req_length r) (req_offset r)
                      (req_address r) k w1)) as (Hs & Hc & Htm & Hl).
    eexists _, _, (full_chunks (capture_of r) M (req_offset r) (req_address r) k).
    split; [f_equal; apply surjective_pairing|].
    rewrite Hc, Hs. simpl. rewrite Hchunks, Hsent, full_chunks_length.
    repeat split; try assumption. lia.
  - pose proof (ceil_div_upper _ _ _ HM Hrem) as Hup.
    assert (Hjk : j = k).
    { destruct (Nat.lt_trichotomy j k) as [Hlt|[Heq|Hgt]]; [|exact Heq|lia].
      specialize (Hall j Hlt). rewrite Hfullp in Hbad by lia. lia. }
    subst j. cbv zeta in Htl.
    assert (Htailp : planned_chunk r M k
                     = tail_chunk (capture_of r) M (req_length r) (req_offset r)
                         (req_address r) k).
    { unfold planned_chunk.
      destruct (Z.ltb_spec (Z.of_nat k + 1) (ceil_div (req_length r) M));
        [lia|reflexivity]. }
    rewrite Htailp in Hbad.
    destruct Htl as [(_ & Hrun)|[(Hnn & _)|(Hnn & _)]]; [|lia|lia].
    rewrite Hrun.
    destruct (Herr (after_tail (capture_of r) M (req_length r) (req_offset r)
                      (req_address r) k w1)) as (Hs & Hc & Htm & Hl).
    eexists _, _, (full_chunks (capture_of r) M (req_offset r) (req_address r) k
                   ++ [tail_chunk (capture_of r) M (req_length r) (req_offset r)
                         (req_address r) k]).
    split; [f_equal; apply surjective_pairing|].
    rewrite Hc, Hs. simpl. rewrite Hchunks, Hsent, length_app, full_chunks_length.
    simpl. repeat split; try assumption. lia.
Qed.

Lemma abort_at_first_failure_witness :
  exists w2 d2 new,
    first_readiness MiB16 (drv_fail_at 1) (DMA.DMA page4k (3 * MiB16))
      (mkReq 7 0 (3 * MiB16) 2147483648 true sample_hdr) env_ok EPOLLIN
      (world_with_fd 7) = Some (w2, d2) /\
    chunks w2 = [] ++ new /\ length new = 2%nat /\
    sent w2 = [] ++ [response_of sample_hdr PLDM_ERROR 0] /\
    DMA.timer d2 = None /\ DMA.getResponseReceived d2 = false.
Proof.
  apply (abort_at_first_failure MiB16 (drv_fail_at 1) (DMA.DMA page4k (3 * MiB16))
           (mkReq 7 0 (3 * MiB16) 2147483648 true sample_hdr) env_ok EPOLLIN
           (world_with_fd 7) 1).
  - reflexivity.
  - apply DMA_fresh.
  - reflexivity.
  - simpl. lia.
  - reflexivity.
  - reflexivity.
  - reflexivity.
  - unfold well_typed. simpl. unfold MiB16. lia.
  - simpl. unfold MiB16. lia.
  - vm_compute. discriminate.
  - vm_compute. reflexivity.
  - intros i Hi. assert (i = 0%nat) by lia. subst i. vm_compute. discriminate.
  - vm_compute. reflexivity.
Defined.

(** A short transfer of the tail is tried again.  An invocation that
    leaves the session armed (the operation for the tail returned a
    non-negative count different from the tail's length) has sent
    nothing and leaves the plan standing at the last chunk it issued;
    the next readiness event submits that very chunk once more. *)
Theorem short_tail_is_resubmitted M drv d0 r e revents revents' w0 :
  0 < M -> fresh d0 ->
  0 <= env_opened e -> env_timer_throws e = false -> env_io_throws e = false ->
  well_typed r ->
  Z.land revents (Z.lor EPOLLIN EPOLLOUT) <> 0 ->
  Z.land revents' (Z.lor EPOLLIN EPOLLOUT) <> 0 ->
  exists w2 d2,
    first_readiness M drv d0 r e revents w0 = Some (w2, d2) /\
    (DMA.timer d2 <> None ->
     exists pre ch w3 d3,
       chunks w2 = chunks w0 ++ pre ++ [ch] /\ sent w2 = sent w0 /\
       part w2 = IOPart.mk (chunk_length ch) (chunk_offset ch) (chunk_address ch) /\
       dispatch M drv (Readiness revents') w2 d2 = Some (w3, d3) /\
       chunks w3 = chunks w2 ++ [ch]).
Proof.
  intros HM Hfresh Hfd Ht Hi (HL & Ho & Ha) Hrev Hrev'.
  destruct (transferAll_started d0 r e w0 Hfresh Hfd Ht Hi)
    as (w1 & d1 & io & tm & Hstart & Hpart & Hsent & Hchunks & Hio & Hcb & _).
  destruct (callback_spec M drv HM (io_callback io) revents w1 d1
              (req_length r) (req_offset r) (req_address r) Hpart HL Ho Ha Hrev)
    as (k & HkL & _ & _ & Hcase).
  unfold first_readiness. rewrite Hstart. simpl. unfold registered_io at 1.
  rewrite Hio.
  set (c := io_callback io) in *.
  set (L := req_length r) in *. set (off := req_offset r) in *.
  set (addr := req_address r) in *.
  assert (Hterm : forall w d, DMA.timer (snd (DMA.deleteIOInstance d w)) <> None ->
                              False).
  { intros w d H. apply H. apply deleteIOInstance_fields. }
  destruct Hcase as [(Hrun & _)|(Hrem & _ & Htl)].
  { rewrite Hrun. eexists _, _. split; [f_equal; apply surjective_pairing|].
    intros H. exfalso. eapply Hterm. exact H. }
  cbv zeta in Htl.
  destruct Htl as [(_ & Hrun)|[(_ & _ & Hrun)|(_ & _ & Hrun)]]; rewrite Hrun.
  1,2: eexists _, _; (split; [f_equal; apply surjective_pairing|]);
       intros H; exfalso; eapply Hterm; exact H.
  exists (after_tail c M L off addr k w1), d1. split; [reflexivity|]. intros _.
  set (w2 := after_tail c M L off addr k w1).
  set (ch := tail_chunk c M L off addr k).
  assert (Hp2 : part w2 = IOPart.mk (chunk_length ch) (chunk_offset ch)
                            (chunk_address ch)) by reflexivity.
  assert (Hr32 : 0 <= chunk_offset ch < 2 ^ 32).
  { simpl. apply Z.mod_pos_bound. lia. }
  assert (Hr64 : 0 <= chunk_address ch < 2 ^ 64).
  { simpl. apply Z.mod_pos_bound. lia. }
  assert (HL2 : 0 <= chunk_length ch < 2 ^ 32) by (simpl; lia).
  destruct (invocation_chunks M drv HM c revents' w2 d1 (chunk_length ch)
              (chunk_offset ch) (chunk_address ch) Hp2 HL2 Hr32 Hr64 Hrev')
    as (w3 & d3 & k' & Hrun' & HkL2 & HkL2' & Hcase').
  assert (Hk' : k' = 0%nat).
  { simpl in HkL2, HkL2'. destruct (Z.eq_dec (L - Z.of_nat k * M) 0); nia. }
  subst k'.
  exists (full_chunks c M off addr k), ch, w3, d3.
  split; [unfold w2, after_tail; simpl; now rewrite Hchunks|].
  split; [unfold w2, after_tail, after_rounds; simpl; exact Hsent|].
  split; [exact Hp2|].
  unfold registered_io. rewrite Hio. fold c. split; [exact Hrun'|].
  destruct Hcase' as [(_ & Hk1 & _)|(Hnew & _)]; [lia|].
  rewrite Hnew. simpl. f_equal. f_equal. unfold tail_chunk. simpl.
  fold ch.
  rewrite !Z.add_0_r, Z.sub_0_r.
  change (Int.uint32 (off + Z.of_nat k * M)) with (chunk_offset ch).
  change (Int.uint64 (addr + Z.of_nat k * M)) with (chunk_address ch).
  rewrite (uint32_small (chunk_offset ch)), (uint64_small (chunk_address ch))
    by assumption.
  reflexivity.
Qed.

Lemma short_tail_is_resubmitted_witness :
  exists w2 d2 pre ch w3 d3,
    first_readiness MiB16 (fun _ _ => 8) (DMA.DMA page4k 16)
      (mkReq 7 0 16 2147483648 true sample_hdr) env_ok EPOLLIN (world_with_fd 7)
    = Some (w2, d2) /\
    chunks w2 = [] ++ pre ++ [ch] /\ sent w2 = [] /\
    part w2 = IOPart.mk (chunk_length ch) (chunk_offset ch) (chunk_address ch) /\
    dispatch MiB16 (fun _ _ => 8) (Readiness EPOLLOUT) w2 d2 = Some (w3, d3) /\
    chunks w3 = chunks w2 ++ [ch].
Proof.
  destruct (short_tail_is_resubmitted MiB16 (fun _ _ => 8) (DMA.DMA page4k 16)
              (mkReq 7 0 16 2147483648 true sample_hdr) env_ok EPOLLIN EPOLLOUT
              (world_with_fd 7))
    as (w2 & d2 & Hrun & Hretry).
  - reflexivity.
  - apply DMA_fresh.
  - simpl. lia.
  - reflexivity.
  - reflexivity.
  - unfold well_typed. simpl. lia.
  - vm_compute. discriminate.
  - vm_compute. discriminate.
  - destruct Hretry as (pre & ch & w3 & d3 & H).
    + vm_compute in Hrun. injection Hrun as <- <-. discriminate.
    + exists w2, d2, pre, ch, w3, d3. tauto.
Defined.

(** ** The DMA object on its own *)

Lemma pageAlignedLength_bounds ps L :
  0 < ps -> 0 <= L -> L + ps <= 2 ^ 32 ->
  L <= DMA.pageAlignedLength (DMA.DMA ps L) < L + ps /\
  DMA.pageAlignedLength (DMA.DMA ps L) mod ps = 0 /\
  (L mod ps = 0 -> DMA.pageAlignedLength (DMA.DMA ps L) = L).
Proof.
  intros Hps HL Hfit.
  destruct (ceil_div_split L ps Hps HL) as [Hlt Hge].
  pose proof (Z.div_mod L ps ltac:(lia)) as Hdm.
  pose proof (Z.mod_pos_bound L ps Hps) as Hm.
  assert (Hc : ceil_div L ps * ps < 2 ^ 32 /\ L <= ceil_div L ps * ps < L + ps /\
               (L mod ps = 0 -> ceil_div L ps * ps = L)).
  { destruct (Z.lt_ge_cases (L / ps * ps) L) as [H|H].
    - rewrite (Hlt H). nia.
    - destruct (Hge H) as [-> Heq]. nia. }
  destruct Hc as (Hc1 & Hc2 & Hc3).
  rewrite (pageAlignedLength_in_range ps L Hps HL Hc1).
  split; [exact Hc2|]. split; [apply Z_mod_mult|exact Hc3].
Qed.

(** For every length whose rounding fits 32 bits the buffer size
    computed by the constructor is a multiple of the page size, is at
    least the length and exceeds it by less than one page; a length
    that is a multiple of the page size is kept. *)
Theorem page_aligned_length_covers ps L :
  0 < ps -> 0 <= L -> L + ps <= 2 ^ 32 ->
  L <= DMA.pageAlignedLength (DMA.DMA ps L) < L + ps /\
  DMA.pageAlignedLength (DMA.DMA ps L) mod ps = 0 /\
  (L mod ps = 0 -> DMA.pageAlignedLength (DMA.DMA ps L) = L).
Proof. exact (pageAlignedLength_bounds ps L). Qed.

Lemma page_aligned_length_covers_witness :
  4097 <= DMA.pageAlignedLength (DMA.DMA page4k 4097) < 4097 + page4k /\
  DMA.pageAlignedLength (DMA.DMA page4k 4097) mod page4k = 0 /\
  (4097 mod page4k = 0 -> DMA.pageAlignedLength (DMA.DMA page4k 4097) = 4097).
Proof.
  apply (page_aligned_length_covers page4k 4097); unfold page4k; lia.
Defined.

(** [getpageAlignedLength] hands the size out as [int32_t].  For the
    lengths whose rounding fits 32 bits ([L + ps <= 2^32]): a rounded
    size below 2 GiB comes out unchanged, and for every such length of
    2 GiB or more the rounded size comes out lowered by 2^32, a
    negative number. *)
Theorem page_aligned_getter_sign ps L :
  0 < ps -> 0 <= L -> L + ps <= 2 ^ 32 ->
  (ceil_div L ps * ps < 2 ^ 31 ->
   DMA.getpageAlignedLength (DMA.DMA ps L) = ceil_div L ps * ps) /\
  (2 ^ 31 <= L ->
   DMA.getpageAlignedLength (DMA.DMA ps L) = ceil_div L ps * ps - 2 ^ 32 /\
   DMA.getpageAlignedLength (DMA.DMA ps L) < 0).
Proof.
  intros Hps HL Hfit.
  destruct (pageAlignedLength_bounds ps L Hps HL Hfit) as (Hb & _ & _).
  destruct (ceil_div_split L ps Hps HL) as [Hlt Hge].
  pose proof (Z.div_mod L ps ltac:(lia)) as Hdm.
  pose proof (Z.mod_pos_bound L ps Hps) as Hm.
  assert (Hc : ceil_div L ps * ps < 2 ^ 32).
  { destruct (Z.lt_ge_cases (L / ps * ps) L) as [H|H].
    - rewrite (Hlt H). nia.
    - destruct (Hge H) as [-> Heq]. nia. }
  unfold DMA.getpageAlignedLength.
  rewrite (pageAlignedLength_in_range ps L Hps HL Hc) in *.
  split.
  - intros Hsmall. apply int32_small. lia.
  - intros Hbig. unfold Int.int32.
    assert (Hmod : (ceil_div L ps * ps + 2 ^ 31) mod 2 ^ 32
                   = ceil_div L ps * ps - 2 ^ 31).
    { symmetry. apply (Z.mod_unique_pos _ _ 1); lia. }
    rewrite Hmod. lia.
Qed.

Lemma page_aligned_getter_sign_witness :
  (ceil_div 2147483649 page4k * page4k < 2 ^ 31 ->
   DMA.getpageAlignedLength (DMA.DMA page4k 2147483649)
   = ceil_div 2147483649 page4k * page4k) /\
  (2 ^ 31 <= 2147483649 ->
   DMA.getpageAlignedLength (DMA.DMA page4k 2147483649)
   = ceil_div 2147483649 page4k * page4k - 2 ^ 32 /\
   DMA.getpageAlignedLength (DMA.DMA page4k 2147483649) < 0).
Proof.
  apply (page_aligned_getter_sign page4k 2147483649); unfold page4k; lia.
Defined.

(** [getXDMAsharedlocation]: on an object without device descriptor it
    fails without calling [mmap]; when [mmap] fails it records the
    negated errno and no region; when the device is open and [mmap]
    succeeds, the one region it adds is large enough for the whole
    transfer and a multiple of the page size. *)
Theorem shared_location_outcomes ps L opened a errno w :
  0 < ps -> 0 <= L -> L + ps <= 2 ^ 32 -> 0 <= opened ->
  DMA.getXDMAsharedlocation (inl a) (DMA.DMA ps L) w
  = (MAP_FAILED, w, DMA.DMA ps L) /\
  (let '(_, w1, d1) := DMA.getNewXdmaFd opened (DMA.DMA ps L) w in
   let '(p, w2, d2) := DMA.getXDMAsharedlocation (inr errno) d1 w1 in
   p = MAP_FAILED /\ mappings w2 = mappings w /\
   DMA.rc d2 = - errno /\ DMA.memAddr d2 = MAP_FAILED) /\
  (let '(_, w1, d1) := DMA.getNewXdmaFd opened (DMA.DMA ps L) w in
   let '(p, w2, d2) := DMA.getXDMAsharedlocation (inl a) d1 w1 in
   p = mapped_at a /\ DMA.memAddr d2 = mapped_at a /\
   exists n, mappings w2 = (a, n) :: mappings w /\
             L <= n < L + ps /\ n mod ps = 0).
Proof.
  intros Hps HL Hfit Hfd.
  destruct (pageAlignedLength_bounds ps L Hps HL Hfit) as (Hb & Hm & _).
  split; [reflexivity|].
  unfold DMA.getNewXdmaFd, DMA.getXDMAsharedlocation.
  cbn [DMA.xdmaFd DMA.with_xdmaFd].
  destruct (Z.ltb_spec opened 0); [lia|].
  destruct (Z.leb_spec 0 opened); [|lia].
  split.
  - simpl. tauto.
  - split; [reflexivity|]. split; [reflexivity|].
    eexists. split; [reflexivity|]. split; assumption.
Qed.

Lemma shared_location_outcomes_witness :
  DMA.getXDMAsharedlocation (inl 1073741824) (DMA.DMA page4k 4097) (world_with_fd 7)
  = (MAP_FAILED, world_with_fd 7, DMA.DMA page4k 4097) /\
  (let '(_, w1, d1) := DMA.getNewXdmaFd 5 (DMA.DMA page4k 4097) (world_with_fd 7) in
   let '(p, w2, d2) := DMA.getXDMAsharedlocation (inr 12) d1 w1 in
   p = MAP_FAILED /\ mappings w2 = [] /\
   DMA.rc d2 = - 12 /\ DMA.memAddr d2 = MAP_FAILED) /\
  (let '(_, w1, d1) := DMA.getNewXdmaFd 5 (DMA.DMA page4k 4097) (world_with_fd 7) in
   let '(p, w2, d2) := DMA.getXDMAsharedlocation (inl 1073741824) d1 w1 in
   p = mapped_at 1073741824 /\ DMA.memAddr d2 = mapped_at 1073741824 /\
   exists n, mappings w2 = (1073741824, n) :: [] /\
             4097 <= n < 4097 + page4k /\ n mod page4k = 0).
Proof.
  apply (shared_location_outcomes page4k 4097 5 1073741824 12 (world_with_fd 7));
    unfold page4k; lia.
Defined.

(** [getXdmaFd] opens the device at most once while the stored
    descriptor is greater than 0: after a successful [getNewXdmaFd] it
    returns the stored descriptor and leaves process and object as they
    are, whatever a new [open] would return. *)
Theorem getXdmaFd_reuses_descriptor opened opened' d w :
  0 < opened ->
  let '(_, w1, d1) := DMA.getNewXdmaFd opened d w in
  DMA.getXdmaFd opened' d1 w1 = (opened, w1, d1).
Proof.
  intros Hpos. unfold DMA.getNewXdmaFd, DMA.getXdmaFd. simpl.
  destruct (Z.ltb_spec 0 opened); [reflexivity|lia].
Qed.

Lemma getXdmaFd_reuses_descriptor_witness :
  let '(_, w1, d1) := DMA.getNewXdmaFd 5 (DMA.DMA page4k 16) (world_with_fd 7) in
  DMA.getXdmaFd 6 d1 w1 = (5, w1, d1).
Proof.
  apply (getXdmaFd_reuses_descriptor 5 6 (DMA.DMA page4k 16) (world_with_fd 7)). lia.
Defined.

(** [getNewXdmaFd] never closes the descriptor it replaces: when the
    device is opened a second time on the same object, the first
    descriptor is still open after the destructor has run, which
    closes only the second one. *)
Theorem replaced_descriptor_stays_open a b d w :
  0 < a -> 0 < b -> a <> b -> a <> DMA.sourceFd d ->
  let '(_, w1, d1) := DMA.getNewXdmaFd a d w in
  let '(_, w2, d2) := DMA.getNewXdmaFd b d1 w1 in
  a ∈ open_fds (fst (DMA.destroy d2 w2)) /\
  b ∉ open_fds (fst (DMA.destroy d2 w2)).
Proof.
  intros Ha Hb Hab Hsrc. unfold DMA.getNewXdmaFd.
  destruct (Z.leb_spec 0 a); [|lia]. destruct (Z.leb_spec 0 b); [|lia].
  rewrite destroy_open_fds. simpl. unfold closed_by_destructor.
  destruct (Z.ltb_spec 0 b); [|lia].
  destruct (0 <? DMA.sourceFd d); set_solver.
Qed.

Lemma replaced_descriptor_stays_open_witness :
  let '(_, w1, d1) := DMA.getNewXdmaFd 5 (DMA.DMA page4k 16) (world_with_fd 7) in
  let '(_, w2, d2) := DMA.getNewXdmaFd 6 d1 w1 in
  5 ∈ open_fds (fst (DMA.destroy d2 w2)) /\
  6 ∉ open_fds (fst (DMA.destroy d2 w2)).
Proof.
  apply (replaced_descriptor_stays_open 5 6 (DMA.DMA page4k 16) (world_with_fd 7));
    simpl; lia.
Defined.

(** [deleteIOInstance] may be called any number of times: a second call
    changes nothing, and on an object that does not hold an IO source
    in both pointers the destructor leaves the same process state
    behind whether or not [deleteIOInstance] ran before it. *)
Theorem deleteIOInstance_idempotent d w :
  DMA.deleteIOInstance (snd (DMA.deleteIOInstance d w))
                       (fst (DMA.deleteIOInstance d w))
  = DMA.deleteIOInstance d w /\
  (DMA.iotPtr d = None \/ DMA.iotPtrbc d = None ->
   fst (DMA.destroy (snd (DMA.deleteIOInstance d w)) (fst (DMA.deleteIOInstance d w)))
   = fst (DMA.destroy d w)).
Proof.
  unfold DMA.deleteIOInstance, DMA.destroy.
  destruct d as [rr ma xf sf pal rc [io|] [iob|] [tm|] ml]; simpl;
    (split; [reflexivity|]); intros [H|H]; try discriminate;
    destruct (0 <? xf), (0 <? sf); reflexivity.
Qed.

Lemma deleteIOInstance_idempotent_witness :
  let d := DMA.with_timer (Some (mkTimer 2 20 1 (capture_of request_A)))
             (DMA.with_iotPtr (Some (mkIO 1 5 5 (capture_of request_A)))
                (DMA.DMA page4k 16)) in
  let w := world_with_fd 7 in
  DMA.deleteIOInstance (snd (DMA.deleteIOInstance d w))
                       (fst (DMA.deleteIOInstance d w))
  = DMA.deleteIOInstance d w /\
  fst (DMA.destroy (snd (DMA.deleteIOInstance d w)) (fst (DMA.deleteIOInstance d w)))
  = fst (DMA.destroy d w).
Proof.
  intros d w.
  destruct (deleteIOInstance_idempotent d w) as (H1 & H2).
  split; [exact H1|]. apply H2. right. reflexivity.
Defined.

(** An IO source parked by [deleteIOInstance] is lost when the object
    is used again: after a second [insertIOInstance] and
    [deleteIOInstance] the raw pointer holds the second source only, and
    the destructor deletes that one and leaves the first registered. *)
Theorem parked_io_source_lost_on_reuse io1 io2 d w :
  fresh d -> io_id io1 <> io_id io2 -> io_id io1 ∈ io_sources w ->
  let '(wa, da) := DMA.insertIOInstance io1 d w in
  let '(wb, db) := DMA.deleteIOInstance da wa in
  let '(wc, dc) := DMA.insertIOInstance io2 db wb in
  let '(wd, dd) := DMA.deleteIOInstance dc wc in
  DMA.iotPtrbc dd = Some io2 /\
  io_id io1 ∈ io_sources (fst (DMA.destroy dd wd)) /\
  io_id io2 ∉ io_sources (fst (DMA.destroy dd wd)).
Proof.
  intros (Hip & Hipb & Htm) Hne Hin.
  destruct d as [rr ma xf sf pal rc ip ipb tm ml]; simpl in *; subst.
  unfold DMA.insertIOInstance, DMA.deleteIOInstance, DMA.destroy. cbn.
  split; [reflexivity|].
  destruct (0 <? xf); cbn; destruct (0 <? sf); cbn; set_solver.
Qed.

Lemma parked_io_source_lost_on_reuse_witness :
  let io1 := mkIO 1 5 5 (capture_of request_A) in
  let io2 := mkIO 2 5 5 (capture_of request_B) in
  let w := with_io_sources {[1%nat; 2%nat]} (world_with_fd 7) in
  let '(wa, da) := DMA.insertIOInstance io1 (DMA.DMA page4k 16) w in
  let '(wb, db) := DMA.deleteIOInstance da wa in
  let '(wc, dc) := DMA.insertIOInstance io2 db wb in
  let '(wd, dd) := DMA.deleteIOInstance dc wc in
  DMA.iotPtrbc dd = Some io2 /\
  1%nat ∈ io_sources (fst (DMA.destroy dd wd)) /\
  2%nat ∉ io_sources (fst (DMA.destroy dd wd)).
Proof.
  apply (parked_io_source_lost_on_reuse (mkIO 1 5 5 (capture_of request_A))
           (mkIO 2 5 5 (capture_of request_B)) (DMA.DMA page4k 16)
           (with_io_sources {[1%nat; 2%nat]} (world_with_fd 7))).
  - apply DMA_fresh.
  - simpl. lia.
  - simpl. set_solver.
Defined.

(** * The signal handlers of [oem_ibm::Handler] *)

Lemma list_to_map_cons_lookup {V} (k k' : string) (v : V) (l : list (string * V)) :
  (list_to_map ((k', v) :: l) : gmap string V) !! k
  = if String.eqb k' k then Some v else (list_to_map l : gmap string V) !! k.
Proof.
  cbn [list_to_map foldr]. simpl.
  destruct (String.eqb_spec k' k) as [->|Hne].
  - apply lookup_insert_eq.
  - now apply lookup_insert_ne.
Qed.

Lemma resDump_props_spec props vsp pwd :
  NoDup props.*1 ->
  let m : gmap string oem_ibm.PropValue := list_to_map props in
  oem_ibm.resDump_props props vsp pwd =
  if oem_ibm.is_uint32 (m !! "VSPString") || oem_ibm.is_uint32 (m !! "Password")
  then None
  else Some (oem_ibm.string_or vsp (m !! "VSPString"),
             oem_ibm.string_or pwd (m !! "Password")).
Proof.
  intros Hnd m. subst m. revert vsp pwd.
  induction props as [|[k v] rest IH]; intros vsp pwd.
  - reflexivity.
  - apply NoDup_cons in Hnd as [Hk Hnd]. specialize (IH Hnd).
    cbn [oem_ibm.resDump_props]. rewrite !list_to_map_cons_lookup.
    destruct (String.eqb_spec k "VSPString") as [->|Hv].
    + assert (Hnone : (list_to_map rest : gmap string _) !! "VSPString" = None).
      { now apply not_elem_of_list_to_map_1. }
      destruct v as [s|n]; simpl; [|reflexivity].
      rewrite IH, Hnone. simpl.
      destruct (oem_ibm.is_uint32 _); reflexivity.
    + destruct (String.eqb_spec k "Password") as [->|Hp].
      * assert (Hnone : (list_to_map rest : gmap string _) !! "Password" = None).
        { now apply not_elem_of_list_to_map_1. }
        destruct v as [s|n]; simpl.
        -- rewrite IH, Hnone. simpl. rewrite orb_false_r.
           destruct (oem_ibm.is_uint32 _); reflexivity.
        -- now rewrite orb_true_r.
      * apply IH.
Qed.

(** The resource-dump handler acts on the entry of [resDumpEntry] in
    the signal's interface map and on nothing else: without that entry
    it changes nothing; with it, it appends exactly one handler object
    and forwards the strings stored under [VSPString] and [Password],
    the empty string for a missing one; and when one of the two holds
    a [uint32_t] the exception leaves the callback. *)
Theorem resDumpMatcher_outcome path (ifs : oem_ibm.Interfaces) h :
  Forall (fun i => NoDup i.2.*1) ifs ->
  oem_ibm.resDumpMatcher path ifs h =
  match (list_to_map ifs : gmap string oem_ibm.Props) !! oem_ibm.resDumpEntry with
  | None => Some h
  | Some props =>
      let m : gmap string oem_ibm.PropValue := list_to_map props in
      if oem_ibm.is_uint32 (m !! "VSPString") || oem_ibm.is_uint32 (m !! "Password")
      then None
      else Some (oem_ibm.emplace_back path
                   (oem_ibm.processNewResourceDump
                      (oem_ibm.string_or EmptyString (m !! "VSPString"))
                      (oem_ibm.string_or EmptyString (m !! "Password"))) h)
  end.
Proof.
  induction 1 as [|[name props] rest Hnd _ IH].
  - reflexivity.
  - cbn [oem_ibm.resDumpMatcher]. rewrite list_to_map_cons_lookup.
    destruct (String.eqb name oem_ibm.resDumpEntry); [|exact IH].
    rewrite (resDump_props_spec props EmptyString EmptyString Hnd). cbv zeta.
    destruct (_ || _); reflexivity.
Qed.

Lemma resDumpMatcher_outcome_witness :
  oem_ibm.resDumpMatcher "/xyz/openbmc_project/dump/resource/entry/1"
    [("com.ibm.Dump.Entry.Resource",
      [("Password", oem_ibm.VString "pw"); ("VSPString", oem_ibm.VString "vsp")])]
    (oem_ibm.mkHandler 3 9 [])
  = Some (oem_ibm.mkHandler 3 9
            [oem_ibm.mkDbusToFileHandler 3 9
               "/xyz/openbmc_project/dump/resource/entry/1"
               (oem_ibm.processNewResourceDump "vsp" "pw")]).
Proof.
  rewrite resDumpMatcher_outcome.
  - vm_compute. reflexivity.
  - repeat constructor; vm_compute; set_solver.
Defined.

(** The certificate handler forwards the first and only [CSR] property
    of the [certAuthority] entry together with the last component of
    the object path; it changes nothing when the entry or the property
    is missing, and the exception leaves the callback when [CSR] holds
    a [uint32_t]. *)
Theorem vmiCertMatcher_outcome filename path (ifs : oem_ibm.Interfaces) h :
  oem_ibm.vmiCertMatcher filename path ifs h =
  match (list_to_map ifs : gmap string oem_ibm.Props) !! oem_ibm.certAuthority with
  | None => Some h
  | Some props =>
      match (list_to_map props : gmap string oem_ibm.PropValue) !! "CSR" with
      | None => Some h
      | Some (oem_ibm.VString csr) =>
          Some (oem_ibm.emplace_back path
                  (oem_ibm.newCsrFileAvailable csr (filename path)) h)
      | Some (oem_ibm.VUint32 _) => None
      end
  end.
Proof.
  induction ifs as [|[name props] rest IH].
  - reflexivity.
  - cbn [oem_ibm.vmiCertMatcher]. rewrite list_to_map_cons_lookup.
    destruct (String.eqb name oem_ibm.certAuthority); [|exact IH].
    clear IH. induction props as [|[k v] ps IHp].
    + reflexivity.
    + cbn [oem_ibm.vmiCert_props]. rewrite list_to_map_cons_lookup.
      destruct (String.eqb k "CSR"); [|exact IHp].
      destruct v; reflexivity.
Qed.

Lemma string_compare_refl s : String.compare s s = Eq.
Proof.
  pose proof (String.compare_antisym s s) as H.
  destruct (String.compare s s); simpl in H; congruence.
Qed.

Lemma string_ltb_irrefl s : String.ltb s s = false.
Proof. unfold String.ltb. now rewrite string_compare_refl. Qed.

Lemma string_ltb_asym a b : String.ltb a b = true -> String.ltb b a = false.
Proof.
  unfold String.ltb. rewrite (String.compare_antisym b a).
  destruct (String.compare a b); simpl; congruence.
Qed.

(** The license handler looks at one property only, the first of the
    changed-properties map.  When the map holds a property whose name
    sorts before [LicenseString], a new license string in the same
    signal is not forwarded, whatever it is.  When [LicenseString] is
    the smallest name and holds a non-empty string, one handler object
    with an empty object path forwards it; an empty string is not
    forwarded. *)
Theorem codLicensesubs_first_property_only {V} (get : V -> option string)
    (props : list (string * V)) h :
  oem_ibm.key_sorted props ->
  (forall k v, (k, v) ∈ props -> String.ltb k "LicenseString" = true ->
               oem_ibm.codLicensesubs get props h = Some h) /\
  (forall v lic,
     ("LicenseString", v) ∈ props -> get v = Some lic ->
     (forall k v', (k, v') ∈ props -> String.ltb k "LicenseString" = false) ->
     oem_ibm.codLicensesubs get props h =
     if String.eqb lic EmptyString then Some h
     else Some (oem_ibm.emplace_back EmptyString (oem_ibm.newLicFileAvailable lic) h)).
Proof.
  intros Hs. destruct props as [|[k0 v0] rest]; [split; intros; set_solver|].
  apply StronglySorted_inv in Hs as [_ Hall]. rewrite Forall_forall in Hall.
  split.
  - intros k v Hin Hlt. unfold oem_ibm.codLicensesubs.
    destruct (String.eqb_spec k0 "LicenseString") as [->|Hne]; [|reflexivity].
    exfalso. apply elem_of_cons in Hin as [[= -> ->]|Hin].
    + now rewrite string_ltb_irrefl in Hlt.
    + specialize (Hall _ Hin). simpl in Hall.
      apply string_ltb_asym in Hall. congruence.
  - intros v lic Hin Hget Hmin. unfold oem_ibm.codLicensesubs.
    apply elem_of_cons in Hin as [[= <- <-]|Hin].
    + rewrite String.eqb_refl, Hget. reflexivity.
    + exfalso. specialize (Hall _ Hin). simpl in Hall.
      rewrite (Hmin k0 v0) in Hall by set_solver. discriminate.
Qed.

Lemma codLicensesubs_first_property_only_witness :
  oem_ibm.codLicensesubs oem_ibm.get_string
    [("Activated", oem_ibm.VUint32 1); ("LicenseString", oem_ibm.VString "key")]
    (oem_ibm.mkHandler 3 9 [])
  = Some (oem_ibm.mkHandler 3 9 []) /\
  oem_ibm.codLicensesubs oem_ibm.get_string
    [("LicenseString", oem_ibm.VString "key"); ("Status", oem_ibm.VUint32 1)]
    (oem_ibm.mkHandler 3 9 [])
  = Some (oem_ibm.emplace_back EmptyString (oem_ibm.newLicFileAvailable "key")
            (oem_ibm.mkHandler 3 9 [])).
Proof.
  split.
  - refine (proj1 (codLicensesubs_first_property_only oem_ibm.get_string
             [("Activated", oem_ibm.VUint32 1); ("LicenseString", oem_ibm.VString "key")]
             (oem_ibm.mkHandler 3 9 []) _) "Activated" (oem_ibm.VUint32 1) _ _).
    + repeat constructor.
    + set_solver.
    + reflexivity.
  - refine (proj2 (codLicensesubs_first_property_only oem_ibm.get_string
             [("LicenseString", oem_ibm.VString "key"); ("Status", oem_ibm.VUint32 1)]
             (oem_ibm.mkHandler 3 9 []) _) (oem_ibm.VString "key") "key" _ _ _).
    + repeat constructor.
    + set_solver.
    + reflexivity.
    + intros k v' Hin.
      apply elem_of_cons in Hin as [[= -> ->]|Hin]; [reflexivity|].
      apply list_elem_of_singleton in Hin as [= -> ->]. reflexivity.
Defined.

(** * Sessions under the ownership of the sources *)

(** ** Running the events *)

Lemma owned_run_dropped M drv evs w :
  owned_run M drv evs (w, None) = Some (w, None).
Proof. induction evs as [|ev evs IH]; simpl; [reflexivity|exact IH]. Qed.

Lemma owned_run_app M drv evs1 evs2 s :
  owned_run M drv (evs1 ++ evs2) s =
  match owned_run M drv evs1 s with
  | Some s' => owned_run M drv evs2 s'
  | None => None
  end.
Proof.
  revert s. induction evs1 as [|ev evs1 IH]; intros s; simpl; [reflexivity|].
  destruct (owned_dispatch M drv ev s) as [s1|]; [apply IH|reflexivity].
Qed.

Lemma owned_session_app M drv o r e evs1 evs2 w0 :
  owned_session M drv o r e (evs1 ++ evs2) w0 =
  match owned_session M drv o r e evs1 w0 with
  | Some s' => owned_run M drv evs2 s'
  | None => None
  end.
Proof.
  unfold owned_session.
  destruct (transferAll o r e w0) as [w1 [d1|]]; apply owned_run_app.
Qed.

(** An invariant of the states of a session that implies the session
    invariant while the object lives holds after every sequence of
    events, and every sequence of events can be run. *)
Lemma owned_run_inv M drv (P : World * option DMA.t -> Prop) w0 r e :
  0 < M ->
  (forall w d, P (w, Some d) -> session_inv w0 r e w d) ->
  (forall ev s s', P s -> owned_dispatch M drv ev s = Some s' -> P s') ->
  forall evs s, P s -> exists s', owned_run M drv evs s = Some s' /\ P s'.
Proof.
  intros HM Hinv Hstep.
  induction evs as [|ev evs IH]; intros s Hs; simpl; [eauto|].
  assert (Hd : exists s1, owned_dispatch M drv ev s = Some s1).
  { destruct s as [w [d|]]; simpl; [|eauto].
    destruct (dispatch_total M drv HM w0 r e ev w d (Hinv _ _ Hs)) as (w' & d' & H).
    rewrite H. eauto. }
  destruct Hd as (s1 & Hd). rewrite Hd. apply IH. eapply Hstep; eassumption.
Qed.

(** ** Start and end of a life *)

Lemma deleteIOInstance_mappings d w :
  mappings (fst (DMA.deleteIOInstance d w)) = mappings w.
Proof.
  unfold DMA.deleteIOInstance.
  destruct d as [rr ma xf sf pal rc [io|] ipb [tm|] ml]; reflexivity.
Qed.

Lemma dispatch_mappings M drv ev w d w' d' :
  dispatch M drv ev w d = Some (w', d') -> mappings w' = mappings w.
Proof.
  destruct ev as [revents|]; simpl.
  - destruct (registered_io d) as [io|]; [|now intros [= <- <-]].
    intros H. apply callback_cases in H.
    destruct H as (wm & (_ & Hm & _) & [H|[H|H]]).
    + now inversion H; subst.
    + pose proof (f_equal fst H) as H1. simpl in H1. subst w'.
      now rewrite deleteIOInstance_mappings.
    + pose proof (f_equal fst H) as H1. simpl in H1. subst w'.
      now rewrite deleteIOInstance_mappings.
  - destruct (DMA.timer d) as [tm|]; [|now intros [= <- <-]].
    destruct (timerCb_cases (timer_callback tm) w d)
      as (wm & (_ & Hm & _) & [H|H]); rewrite H; intros [= Heq].
    + now inversion Heq; subst.
    + pose proof (f_equal fst Heq) as H1. simpl in H1. subst w'.
      now rewrite deleteIOInstance_mappings.
Qed.

(** What [transferAll] returns on a session object: the session is
    armed and nothing is sent, or the setup failed, PLDM_ERROR is
    answered and no timer is held. *)
Lemma transferAll_outcome d0 r e w0 :
  well_typed r -> fresh d0 ->
  exists w1 d1,
    transferAll (Some d0) r e w0 = (w1, Some d1) /\
    session_inv w0 r e w1 d1 /\ chunks w1 = chunks w0 /\
    mappings w1 = mappings w0 /\ open_fds w1 = opened_fds e w0 /\
    DMA.responseReceived d1 = DMA.responseReceived d0 /\
    part w1 = IOPart.mk (req_length r) (req_offset r) (req_address r) /\
    ((DMA.timer d1 <> None /\ sent w1 = sent w0 /\ registered_io d1 <> None) \/
     (DMA.timer d1 = None /\
      sent w1 = sent w0 ++ resp_if (req_hdr r) PLDM_ERROR 0)).
Proof.
  intros Hr Hfresh.
  destruct (transferAll_inv d0 r e w0 Hr Hfresh)
    as (w1 & d1 & Hstart & Hinv & Hc & Hm & _).
  exists w1, d1. split; [exact Hstart|]. split; [exact Hinv|].
  split; [exact Hc|]. split; [exact Hm|].
  split; [exact (transferAll_open_fds_eq _ _ _ _ _ _ Hstart)|].
  clear Hinv Hc Hm Hr. revert Hstart. destruct Hfresh as (Hip & Hipb & Htm).
  destruct d0 as [rr ma xf sf pal rc ip ipb tm ml]; simpl in *; subst.
  unfold transferAll, DMA.getNewXdmaFd, DMA.initTimer, respond_error,
    DMA.deleteIOInstance, DMA.insertIOInstance, sendPLDMRespMsg, resp_if,
    response_of. simpl.
  destruct (env_opened e <? 0), (0 <=? env_opened e), (env_timer_throws e),
    (env_io_throws e), (respInterface (req_hdr r)); simpl;
    intros [= <- <-]; simpl; rewrite ?app_nil_r;
    (split; [reflexivity|]); (split; [reflexivity|]);
    first [right; split; reflexivity
          | left; split; [discriminate|split; [reflexivity|discriminate]]].
Qed.

Lemma destroy_released w0 r e w d :
  session_inv w0 r e w d -> mappings w = mappings w0 ->
  open_fds w = opened_fds e w0 ->
  released w0 r e (fst (DMA.destroy d w)).
Proof.
  intros Hinv Hm Hf.
  destruct (destroy_sources _ _ _ _ _ Hinv) as (Hio & Htm).
  destruct (destroy_handles d w) as (_ & _ & _ & Hm' & _).
  split; [exact Hio|]. split; [exact Htm|]. split; [congruence|].
  now rewrite destroy_open_fds, (inv_xdma _ _ _ _ _ Hinv),
    (inv_source _ _ _ _ _ Hinv), Hf.
Qed.

(** One event on a session that is armed and has not answered either
    leaves the session as it is, or is the session's answer and takes
    the timer away. *)
Lemma dispatch_outcome w0 r e M drv ev w d w' d' :
  session_inv w0 r e w d ->
  dispatch M drv ev w d = Some (w', d') ->
  (sent w' = sent w /\ d' = d) \/
  (DMA.timer d' = None /\
   exists news, sent w' = sent w ++ news /\ answer_of r news).
Proof.
  intros Hinv. destruct ev as [revents|]; simpl.
  - destruct (registered_io d) as [io|] eqn:Hio; [|intros [= <- <-]; now left].
    rewrite (inv_io_cb _ _ _ _ _ Hinv io Hio). intros H.
    apply callback_outcome in H. destruct H as [H|[(Hs & Hd)|(Hs & Hd)]].
    + now left.
    + right. split; [rewrite Hd; apply deleteIOInstance_fields|].
      eexists. split; [exact Hs|]. now left.
    + right. split; [rewrite Hd; apply deleteIOInstance_fields|].
      eexists. split; [exact Hs|]. now right.
  - destruct (DMA.timer d) as [tm|] eqn:Htm; [|intros [= <- <-]; now left].
    rewrite (inv_timer_cb _ _ _ _ _ Hinv tm Htm).
    destruct (timerCb_outcome (capture_of r) w d) as [(H & _)|(_ & Hs & _ & Hd)].
    + rewrite H. intros [= <- <-]. now left.
    + intros [= Heq]. rewrite Heq in Hs, Hd. simpl in Hs, Hd. right.
      split; [rewrite Hd; apply deleteIOInstance_fields|].
      eexists. split; [exact Hs|]. now left.
Qed.

Section Life.
Variables (w0 : World) (r : Request) (e : Env) (latch0 : bool).
Variables (M : Z) (drv : nat -> Chunk -> Z).

Lemma life_settle_answered w d news :
  session_inv w0 r e w d -> mappings w = mappings w0 ->
  open_fds w = opened_fds e w0 ->
  DMA.timer d = None -> sent w = sent w0 ++ news -> answer_of r news ->
  life_inv w0 r e latch0 (settle w d).
Proof.
  intros Hinv Hm Hf Htm Hs Ha. unfold settle. rewrite Htm. simpl.
  split; [now apply destroy_released|].
  exists news. split; [|exact Ha].
  destruct (destroy_handles d w) as (_ & _ & _ & _ & Hs' & _). congruence.
Qed.

Lemma life_step ev s s' :
  life_inv w0 r e latch0 s -> owned_dispatch M drv ev s = Some s' ->
  life_inv w0 r e latch0 s'.
Proof.
  destruct s as [w [d|]]; simpl; [|intros H [= <-]; exact H].
  intros (Hinv & Htm & Hs & Hl & Hm & Hf).
  destruct (dispatch M drv ev w d) as [[w' d']|] eqn:Hd; [|discriminate].
  intros [= <-].
  pose proof (inv_dispatch _ _ _ _ _ _ _ _ _ _ Hinv Hd) as Hinv'.
  pose proof (dispatch_mappings _ _ _ _ _ _ _ Hd) as Hm'.
  pose proof (dispatch_open_fds _ _ _ _ _ _ _ Hd) as Hf'.
  destruct (dispatch_outcome _ _ _ _ _ _ _ _ _ _ Hinv Hd)
    as [(Hs' & ->)|(Htm' & news & Hs' & Ha)].
  - unfold settle. destruct (DMA.timer d) as [tm|] eqn:Ht; [|now elim Htm]. simpl.
    split; [exact Hinv'|]. split; [now rewrite Ht|]. split; [congruence|].
    split; [exact Hl|]. split; congruence.
  - apply life_settle_answered with news; try assumption; congruence.
Qed.

Lemma life_alive w d :
  life_inv w0 r e latch0 (w, Some d) -> session_inv w0 r e w d.
Proof. now intros (H & _). Qed.

(** The watchdog ends every session that was started with the latch
    unset. *)
Lemma life_expiry w d :
  latch0 = false -> life_inv w0 r e latch0 (w, Some d) ->
  exists w', owned_dispatch M drv Expiry (w, Some d) = Some (w', None).
Proof.
  intros -> (Hinv & Htm & Hs & Hl & Hm & Hf). simpl.
  destruct (DMA.timer d) as [tm|] eqn:Ht; [|now elim Htm].
  destruct (timerCb_outcome (timer_callback tm) w d) as [(_ & H)|(_ & _ & _ & Hd)];
    [congruence|].
  destruct (timerCb (timer_callback tm) w d) as [w' d'] eqn:Hcb. simpl in Hd.
  unfold settle. rewrite Hd, (proj1 (deleteIOInstance_fields d w)). eauto.
Qed.

End Life.

(** Every session runs, and [life_inv] holds of it after every
    sequence of events. *)
Lemma owned_session_life M drv d0 r e evs w0 :
  0 < M -> well_typed r -> fresh d0 ->
  exists s,
    owned_session M drv (Some d0) r e evs w0 = Some s /\
    life_inv w0 r e (DMA.responseReceived d0) s.
Proof.
  intros HM Hr Hfresh.
  destruct (transferAll_outcome d0 r e w0 Hr Hfresh)
    as (w1 & d1 & Hstart & Hinv & _ & Hm & Hf & Hl & _ & Hcase).
  unfold owned_session. rewrite Hstart.
  apply (owned_run_inv M drv (life_inv w0 r e (DMA.responseReceived d0)) w0 r e HM).
  - apply life_alive.
  - apply life_step.
  - destruct Hcase as [(Htm & Hs & _)|(Htm & Hs)].
    + unfold settle. destruct (DMA.timer d1) as [tm|] eqn:Ht; [|now elim Htm]. simpl.
      split; [exact Hinv|]. split; [now rewrite Ht|]. split; [exact Hs|].
      split; [exact Hl|]. split; assumption.
    + apply life_settle_answered with (resp_if (req_hdr r) PLDM_ERROR 0);
        try assumption. now left.
Qed.

(** ** One answer, then the drop *)

(** C1 does not hold as stated, in two respects.  Without a transport
    (a null [respInterface], which every send tests for) a session
    that times out is dropped without any response, so "exactly one"
    fails.  And the terminal transitions do not test-and-set the
    latch: after a failed operation and after a timeout the response
    has been sent and the latch is still unset. *)
Lemma C1_no_response_and_latch_unset :
  (exists w,
     owned_session MiB16 drv_complete (Some (DMA.DMA page4k 16))
       (mkReq 7 0 16 2147483648 true (mkHdr 7 6 false 99)) env_ok
       [Expiry] (world_with_fd 7) = Some (w, None) /\
     sent w = []) /\
  (exists w d,
     first_readiness MiB16 (drv_fail_at 0) (DMA.DMA page4k 16)
       (mkReq 7 0 16 2147483648 true sample_hdr) env_ok EPOLLIN
       (world_with_fd 7) = Some (w, d) /\
     sent w = [response_of sample_hdr PLDM_ERROR 0] /\
     DMA.getResponseReceived d = false) /\
  (exists w d,
     live_session MiB16 drv_complete (DMA.DMA page4k 16)
       (mkReq 7 0 16 2147483648 true sample_hdr) env_ok [Expiry]
       (world_with_fd 7) = Some (w, d) /\
     sent w = [response_of sample_hdr PLDM_ERROR 0] /\
     DMA.getResponseReceived d = false).
Proof.
  split; [|split].
  - eexists. split; [vm_compute; reflexivity|reflexivity].
  - eexists _, _. split; [vm_compute; reflexivity|]. split; reflexivity.
  - eexists _, _. split; [vm_compute; reflexivity|]. split; reflexivity.
Qed.

(** C1 as the code has it: a session lives as long as it holds its
    timer, whose callback is its only owner.  While it lives it has
    sent nothing and its latch is as it was at the start.  Every
    answer takes the timer away, so the session is dropped with
    exactly one answer, PLDM_ERROR with length 0 or PLDM_SUCCESS with
    the request length, which is one response if there is a transport
    and none otherwise; events that arrive later reach no callback and
    change nothing.  A session started with the latch unset is ended
    by the watchdog at the latest. *)
Theorem C1_one_response_per_session M drv d0 r e evs w0 :
  0 < M -> well_typed r -> fresh d0 ->
  exists w o,
    owned_session M drv (Some d0) r e evs w0 = Some (w, o) /\
    (forall d, o = Some d ->
       sent w = sent w0 /\ DMA.timer d <> None /\
       DMA.getResponseReceived d = DMA.getResponseReceived d0 /\
       (DMA.getResponseReceived d0 = false ->
        exists w' news,
          owned_session M drv (Some d0) r e (evs ++ [Expiry]) w0
          = Some (w', None) /\
          sent w' = sent w0 ++ news /\ answer_of r news)) /\
    (o = None ->
       (exists news,
          sent w = sent w0 ++ news /\ answer_of r news /\
          (respInterface (req_hdr r) = true -> length news = 1%nat) /\
          (respInterface (req_hdr r) = false -> news = [])) /\
       forall evs',
         owned_session M drv (Some d0) r e (evs ++ evs') w0 = Some (w, None)).
Proof.
  intros HM Hr Hfresh.
  destruct (owned_session_life M drv d0 r e evs w0 HM Hr Hfresh)
    as ([w o] & Hrun & Hlife).
  exists w, o. split; [exact Hrun|]. split.
  - intros d ->. pose proof Hlife as (Hinv & Htm & Hs & Hl & _).
    split; [exact Hs|]. split; [exact Htm|]. split; [exact Hl|].
    intros Hl0.
    destruct (life_expiry w0 r e (DMA.responseReceived d0) M drv w d Hl0 Hlife)
      as (w' & Hexp).
    assert (Hrun' : owned_session M drv (Some d0) r e (evs ++ [Expiry]) w0
                    = Some (w', None)).
    { rewrite owned_session_app, Hrun. cbn [owned_run]. now rewrite Hexp. }
    destruct (owned_session_life M drv d0 r e (evs ++ [Expiry]) w0 HM Hr Hfresh)
      as (s' & Hrun2 & Hlife2).
    rewrite Hrun' in Hrun2. injection Hrun2 as <-.
    destruct Hlife2 as (_ & news & Hs' & Ha).
    exists w', news. split; [exact Hrun'|]. split; assumption.
  - intros ->. destruct Hlife as (_ & news & Hs & Ha). split.
    + exists news. split; [exact Hs|]. split; [exact Ha|].
      unfold answer_of, resp_if in Ha.
      split; intros Ht; rewrite Ht in Ha; destruct Ha as [-> | ->]; reflexivity.
    + intros evs'. rewrite owned_session_app, Hrun. apply owned_run_dropped.
Qed.

Lemma C1_witness :
  exists w o,
    owned_session MiB16 drv_complete (Some (DMA.DMA page4k 16))
      (mkReq 7 0 16 2147483648 true sample_hdr) env_ok
      [Expiry; Readiness EPOLLIN] (world_with_fd 7) = Some (w, o) /\
    o = None /\ sent w = [response_of sample_hdr PLDM_ERROR 0].
Proof.
  destruct (C1_one_response_per_session MiB16 drv_complete (DMA.DMA page4k 16)
              (mkReq 7 0 16 2147483648 true sample_hdr) env_ok
              [Expiry; Readiness EPOLLIN] (world_with_fd 7))
    as (w & o & Hrun & _).
  - reflexivity.
  - unfold well_typed. simpl. lia.
  - apply DMA_fresh.
  - exists w, o. split; [exact Hrun|].
    vm_compute in Hrun. injection Hrun as <- <-. split; reflexivity.
Defined.

(** ** What is released at the drop *)

(** C2 does not hold as stated: the claim has every session close its
    descriptors by the time it is dropped.  A session whose source
    file is descriptor 0 answers the watchdog with PLDM_ERROR and is
    dropped; the device descriptor 5 is closed, descriptor 0 is still
    open, because the destructor closes only descriptors greater than
    0. *)
Lemma C2_descriptor_zero_survives_drop :
  exists w,
    owned_session MiB16 drv_complete (Some (DMA.DMA page4k 4096))
      (mkReq 0 0 4096 2147483648 true sample_hdr) env_ok [Expiry]
      (world_with_fd 0) = Some (w, None) /\
    open_fds w = {[0]} /\ io_sources w = ∅ /\ timers w = ∅ /\
    sent w = [response_of sample_hdr PLDM_ERROR 0].
Proof.
  eexists. split; [vm_compute; reflexivity|].
  repeat split; vm_compute; reflexivity.
Qed.

(** C2 as the code has it: a session is either still armed and
    unanswered, or dropped; the watchdog drops every session at the
    latest.  Whatever the exit path (setup error, failed operation,
    success, timeout), once the session is dropped its IO source and
    its timer are deleted, no mapping made for it is left, and its
    device descriptor and its source descriptor are closed if their
    value is greater than 0; nothing else is closed. *)
Theorem C2_released_on_drop M drv d0 r e evs w0 :
  0 < M -> well_typed r -> fresh d0 -> DMA.responseReceived d0 = false ->
  exists w o,
    owned_session M drv (Some d0) r e evs w0 = Some (w, o) /\
    (o = None ->
       io_sources w ⊆ io_sources w0 /\ timers w ⊆ timers w0 /\
       mappings w = mappings w0 /\
       (0 < env_opened e -> env_opened e ∉ open_fds w) /\
       (0 < req_file r -> req_file r ∉ open_fds w) /\
       open_fds w = opened_fds e w0 ∖ closed_by_destructor (env_opened e)
                                    ∖ closed_by_destructor (req_file r)) /\
    (forall d, o = Some d -> DMA.timer d <> None /\ sent w = sent w0) /\
    exists w',
      owned_session M drv (Some d0) r e (evs ++ [Expiry]) w0 = Some (w', None).
Proof.
  intros HM Hr Hfresh Hl0.
  destruct (owned_session_life M drv d0 r e evs w0 HM Hr Hfresh)
    as ([w o] & Hrun & Hlife).
  exists w, o. split; [exact Hrun|]. split; [|split].
  - intros ->. destruct Hlife as ((Hio & Htm & Hm & Hf) & _).
    split; [exact Hio|]. split; [exact Htm|]. split; [exact Hm|].
    split; [|split; [|exact Hf]]; intros Hpos; rewrite Hf;
      unfold closed_by_destructor.
    + destruct (Z.ltb_spec 0 (env_opened e)); [set_solver|lia].
    + destruct (Z.ltb_spec 0 (req_file r)); [set_solver|lia].
  - intros d ->. destruct Hlife as (_ & Htm & Hs & _). now split.
  - rewrite owned_session_app, Hrun. destruct o as [d|].
    + destruct (life_expiry w0 r e (DMA.responseReceived d0) M drv w d Hl0 Hlife)
        as (w' & Hexp).
      exists w'. cbn [owned_run]. now rewrite Hexp.
    + exists w. reflexivity.
Qed.

Lemma C2_witness :
  exists w o,
    owned_session MiB16 (drv_fail_at 1) (Some (DMA.DMA page4k (MiB16 + 512)))
      (mkReq 7 0 (MiB16 + 512) 2147483648 false sample_hdr)
      env_ok [Readiness EPOLLOUT; Expiry] (world_with_fd 7) = Some (w, o) /\
    o = None /\ open_fds w = ∅ /\ io_sources w ⊆ ∅ /\ timers w ⊆ ∅ /\
    mappings w = [].
Proof.
  destruct (C2_released_on_drop MiB16 (drv_fail_at 1)
              (DMA.DMA page4k (MiB16 + 512))
              (mkReq 7 0 (MiB16 + 512) 2147483648 false sample_hdr)
              env_ok [Readiness EPOLLOUT; Expiry] (world_with_fd 7))
    as (w & o & Hrun & Hdrop & _).
  - reflexivity.
  - unfold well_typed. simpl. unfold MiB16. lia.
  - apply DMA_fresh.
  - reflexivity.
  - exists w, o. split; [exact Hrun|].
    assert (Ho : o = None).
    { vm_compute in Hrun. now injection Hrun as _ <-. }
    destruct (Hdrop Ho) as (Hio & Htm & Hm & _ & _ & Hf).
    split; [exact Ho|]. split; [|split; [exact Hio|split; [exact Htm|exact Hm]]].
    rewrite Hf. vm_compute. reflexivity.
Defined.

(** * One invocation of the readiness callback *)

(** C4 does not hold as stated: the claim has every invocation of the
    readiness callback submit one chunk and return to the reactor.  For
    a request of [maxSize + 1] bytes a single invocation submits both
    chunks, the full one and the one-byte tail. *)
Lemma C4_two_chunks_in_one_invocation :
  transfers_of
    (first_readiness MiB16 drv_complete (DMA.DMA page4k (MiB16 + 1))
       (mkReq 7 0 (MiB16 + 1) 2147483648 true sample_hdr) env_ok EPOLLIN
       (world_with_fd 7))
  = Some [mkChunk 7 0 MiB16 2147483648 true;
          mkChunk 7 MiB16 1 (2147483648 + MiB16) true].
Proof. vm_compute. reflexivity. Qed.

(** C4 as the code has it: one invocation of the readiness callback for a
    readable or writable device submits the chunks of the plan one
    after the other, without returning to the reactor in between: the
    [i]-th chunk has [min(remaining_length, maxSize)] bytes, at least
    one and at most [ceil(L / maxSize)] chunks are submitted.  The
    invocation ends after the first operation that fails: if operation
    [j] before the tail is the first to fail, exactly [j + 1] chunks
    are submitted and PLDM_ERROR is answered.  If no operation before
    the tail fails, all chunks are submitted. *)
Theorem C4_all_chunks_in_one_invocation M drv d0 r e revents w0 :
  0 < M -> fresh d0 ->
  0 <= env_opened e -> env_timer_throws e = false -> env_io_throws e = false ->
  0 < req_length r < 2 ^ 32 -> 0 <= req_offset r < 2 ^ 32 ->
  0 <= req_address r < 2 ^ 64 ->
  Z.land revents (Z.lor EPOLLIN EPOLLOUT) <> 0 ->
  exists w2 d2 new,
    first_readiness M drv d0 r e revents w0 = Some (w2, d2) /\
    chunks w2 = chunks w0 ++ new /\
    (1 <= length new)%nat /\
    Z.of_nat (length new) <= ceil_div (req_length r) M /\
    (forall (i : nat) ch, new !! i = Some ch ->
       chunk_length ch = Z.min (req_length r - Z.of_nat i * M) M) /\
    (forall j : nat, Z.of_nat j + 1 < ceil_div (req_length r) M ->
       (forall i : nat, (i < j)%nat ->
          0 <= drv (length (chunks w0) + i)%nat
                 (nth_full_chunk (capture_of r) M (req_offset r) (req_address r) i)) ->
       drv (length (chunks w0) + j)%nat
           (nth_full_chunk (capture_of r) M (req_offset r) (req_address r) j) < 0 ->
       length new = S j /\
       sent w2 = sent w0 ++ resp_if (req_hdr r) PLDM_ERROR 0) /\
    ((forall i : nat, Z.of_nat i + 1 < ceil_div (req_length r) M ->
        0 <= drv (length (chunks w0) + i)%nat
               (nth_full_chunk (capture_of r) M (req_offset r) (req_address r) i)) ->
     Z.of_nat (length new) = ceil_div (req_length r) M).
Proof.
  intros HM Hfresh Hfd Ht Hi HL Ho Ha Hrev.
  destruct (transferAll_started d0 r e w0 Hfresh Hfd Ht Hi)
    as (w1 & d1 & io & tm & Hstart & Hpart & Hsent & Hchunks & Hio & Hcb & _).
  destruct (callback_spec M drv HM (io_callback io) revents w1 d1
              (req_length r) (req_offset r) (req_address r) Hpart
              ltac:(lia) Ho Ha Hrev)
    as (k & HkL & HkL' & Hpre & Hcase).
  specialize (HkL' ltac:(lia)).
  pose proof (ceil_div_lower _ _ _ HM HkL') as Hlow.
  unfold first_readiness. rewrite Hstart. simpl. unfold registered_io. rewrite Hio.
  rewrite Hcb, Hchunks in *. set (c := capture_of r) in *.
  assert (Hfull : forall (i : nat) ch,
             full_chunks c M (req_offset r) (req_address r) k !! i = Some ch ->
             chunk_length ch = Z.min (req_length r - Z.of_nat i * M) M).
  { intros i ch Hl. apply full_chunks_lookup in Hl. destruct Hl as [Hik ->].
    simpl. nia. }
  destruct Hcase as [(Hrun & Hk1 & Hbad)|(Hrem & Hall & Htail)].
  - rewrite Hrun.
    destruct (respond_error_logs (cap_hdr c)
                (after_rounds c M (req_length r) (req_offset r) (req_address r) k w1)
                d1) as (Hc & Hs).
    eexists _, _, (full_chunks c M (req_offset r) (req_address r) k).
    split; [f_equal; apply surjective_pairing|].
    split; [rewrite Hc; simpl; now rewrite Hchunks|].
    rewrite full_chunks_length. split; [exact Hk1|]. split; [lia|].
    split; [exact Hfull|]. split.
    + intros j Hj Hok Hneg.
      assert (Hjk : j = (k - 1)%nat).
      { destruct (Nat.lt_trichotomy j (k - 1)) as [Hlt|[Heq|Hgt]]; [|exact Heq|].
        - specialize (Hpre j ltac:(lia)). lia.
        - specialize (Hok (k - 1)%nat Hgt). lia. }
      split; [lia|]. rewrite Hs. simpl. rewrite Hsent. reflexivity.
    + intros Hok. exfalso. specialize (Hok (k - 1)%nat ltac:(lia)). lia.
  - pose proof (ceil_div_upper _ _ _ HM Hrem) as Hup.
    cbv zeta in Htail.
    assert (Hchunks2 :
              forall w' d',
                (w', d') = respond_error (cap_hdr c)
                             (after_tail c M (req_length r) (req_offset r)
                                (req_address r) k w1) d1 \/
                (w', d') = DMA.deleteIOInstance (DMA.setResponseReceived true d1)
                             (sendPLDMRespMsg (cap_hdr c) PLDM_SUCCESS
                                (cap_origLength c)
                                (after_tail c M (req_length r) (req_offset r)
                                   (req_address r) k w1)) \/
                (w', d') = (after_tail c M (req_length r) (req_offset r)
                              (req_address r) k w1, d1) ->
                chunks w' = chunks w0 ++
                            full_chunks c M (req_offset r) (req_address r) k ++
                            [tail_chunk c M (req_length r) (req_offset r)
                               (req_address r) k]).
    { intros w' d' [H|[H|H]]; pose proof (f_equal fst H) as H1; simpl in H1;
        subst w'.
      - rewrite (proj1 (respond_error_logs _ _ _)). simpl. now rewrite Hchunks.
      - rewrite (proj1 (deleteIOInstance_logs _ _)),
          (proj1 (proj2 (send_resp_if _ _ _ _))). simpl. now rewrite Hchunks.
      - simpl. now rewrite Hchunks. }
    assert (Hex : exists w2 d2,
               callback M drv c revents w1 d1 = Some (w2, d2) /\
               chunks w2 = chunks w0 ++
                           full_chunks c M (req_offset r) (req_address r) k ++
                           [tail_chunk c M (req_length r) (req_offset r)
                              (req_address r) k]).
    { destruct Htail as [(_ & Hrun)|[(_ & _ & Hrun)|(_ & _ & Hrun)]];
        rewrite Hrun;
        match goal with
        | |- exists _ _, Some ?X = _ /\ _ => destruct X as [w' d'] eqn:E
        end;
        exists w', d'; (split; [reflexivity|]); apply (Hchunks2 w' d');
        rewrite <- E; tauto. }
    destruct Hex as (w2 & d2 & Hrun & Hnew).
    exists w2, d2, (full_chunks c M (req_offset r) (req_address r) k
                    ++ [tail_chunk c M (req_length r) (req_offset r)
                          (req_address r) k]).
    split; [exact Hrun|]. split; [exact Hnew|].
    rewrite length_app, full_chunks_length. simpl.
    split; [lia|]. split; [lia|]. split; [|split; [|lia]].
    + intros i ch Hl. apply lookup_app_Some in Hl.
      destruct Hl as [Hl|[Hge Hl]]; [now apply Hfull|].
      rewrite full_chunks_length in Hge, Hl.
      destruct (i - k)%nat as [|j] eqn:Hj; [|discriminate].
      injection Hl as <-. simpl. replace i with k by lia. lia.
    + intros j Hj _ Hneg. exfalso. specialize (Hall j ltac:(lia)). lia.
Qed.

Lemma C4_witness :
  exists w2 d2 new,
    first_readiness MiB16 (drv_fail_at 0) (DMA.DMA page4k (2 * MiB16 + 512))
      (mkReq 7 0 (2 * MiB16 + 512) 2147483648 false sample_hdr)
      env_ok EPOLLOUT (world_with_fd 7) = Some (w2, d2) /\
    chunks w2 = [] ++ new /\
    (forall (i : nat) ch, new !! i = Some ch ->
       chunk_length ch = Z.min (2 * MiB16 + 512 - Z.of_nat i * MiB16) MiB16) /\
    length new = 1%nat /\
    sent w2 = [] ++ resp_if sample_hdr PLDM_ERROR 0.
Proof.
  destruct (C4_all_chunks_in_one_invocation MiB16 (drv_fail_at 0)
              (DMA.DMA page4k (2 * MiB16 + 512))
              (mkReq 7 0 (2 * MiB16 + 512) 2147483648 false sample_hdr)
              env_ok EPOLLOUT (world_with_fd 7))
    as (w2 & d2 & new & Hrun & Hnew & _ & _ & Hmin & Hfail & _).
  - reflexivity.
  - apply DMA_fresh.
  - simpl. lia.
  - reflexivity.
  - reflexivity.
  - simpl. unfold MiB16. lia.
  - simpl. lia.
  - simpl. lia.
  - vm_compute. discriminate.
  - exists w2, d2, new. split; [exact Hrun|]. split; [exact Hnew|].
    split; [exact Hmin|]. apply (Hfail 0%nat).
    + vm_compute. reflexivity.
    + intros i Hi. lia.
    + vm_compute. reflexivity.
Defined.



(** * The chunks of a whole session *)

(** ** The plan *)








(** ** One invocation, from any plan *)

Section Invoke.
Variable M : Z.
Variable drv : nat -> Chunk -> Z.
Hypothesis HM : 0 < M.


End Invoke.

(** ** The invariant of the transfer log *)


Section Chunks.
Variables (M : Z) (drv : nat -> Chunk -> Z) (w0 : World) (r : Request) (e : Env).
Hypothesis HM : 0 < M.
Hypothesis HL : 0 < req_length r < 2 ^ 32.
Hypothesis Ho : 0 <= req_offset r < 2 ^ 32.
Hypothesis Ha : 0 <= req_address r < 2 ^ 64.







End Chunks.

(** ** The chunks a session issues *)




